(** * weewx RESTful publishing: a shallow embedding of the posting threads

    The development follows [bin/weecore/restx.py] (class [RESTThread]) and
    [bin/weewx/restx.py] (classes [AmbientThread], [CWOPThread],
    [AWEKASThread]).

    Conventions of the embedding:
    - a Python dictionary with string keys is a [gmap string value];
    - Python exceptions are the constructors of [exn]; a method that may
      raise returns a [result];
    - [self.lastpost], the only mutable attribute of a posting thread, is
      passed explicitly;
    - the outside world (the clock, [time.sleep], the network and whatever
      else [process_record] touches) is an abstract state that is threaded
      through the worker loop and through the retry loops;
    - the [Queue.Queue] is the list of the items it holds, oldest first; the
      worker runs against that snapshot and blocks when it is exhausted
      (there is no concurrent producer in the model);
    - numbers that take part in time arithmetic are rationals ([Q]); the
      Python [int] and [float] types are both kept in [value]. *)

From Stdlib Require Import ZArith QArith Qround Lqa Lia Ascii Sorted.
From stdpp Require Import base option list strings gmap.

Local Open Scope Z_scope.

(** ** Exceptions and results *)

(** The exception classes that occur in the two modules.  All of them derive
    from [Exception].  [HTTPError] is a subclass of [URLError] and
    [socket_timeout] a subclass of [socket_error]; [FailedPost],
    [ConnectError] and [SendError] derive from [IOError], [BadLogin] from
    [StandardError]. *)
Inductive exn : Type :=
| BadLogin
| FailedPost
| ConnectError
| SendError
| URLError
| HTTPError (code : Z)
| socket_error
| socket_timeout
| BadStatusLine
| IncompleteRead
| OperationalError
| ValueError
| TypeError
| KeyError
| AssertionError
| OtherException.

Inductive result (A : Type) : Type :=
| Ok (a : A)
| Raise (e : exn).
Arguments Ok {A} a.
Arguments Raise {A} e.

(** Sequencing: an exception raised by the first computation skips the
    rest, as in Python.  The instances give the notation [x ← m; k]. *)
#[global] Instance result_bind : MBind result :=
  fun A B (f : A -> result B) (m : result A) =>
    match m with
    | Ok a => f a
    | Raise e => Raise e
    end.

#[global] Instance result_ret : MRet result := fun A (a : A) => Ok a.

#[global] Instance exn_eq_dec : EqDecision exn.
Proof. solve_decision. Defined.

(** ** Values and records *)

Inductive value : Type :=
| VNone
| VInt (n : Z)
| VFloat (q : Q)
| VStr (s : string).

(** [record[key]] *)
Definition getitem (record : gmap string value) (key : string) : result value :=
  match record !! key with
  | Some v => Ok v
  | None => Raise KeyError
  end.

(** [record.get(key)]: a missing key reads as [None]. *)
Definition dict_get (record : gmap string value) (key : string) : value :=
  match record !! key with
  | Some v => v
  | None => VNone
  end.

(** [record.has_key(key)] *)
Definition has_key (record : gmap string value) (key : string) : bool :=
  match record !! key with
  | Some _ => true
  | None => false
  end.

(** The number denoted by a value in arithmetic; anything else makes the
    arithmetic raise [TypeError]. *)
Definition as_number (v : value) : result Q :=
  match v with
  | VInt n => Ok (inject_Z n)
  | VFloat q => Ok q
  | _ => Raise TypeError
  end.

(** Strict comparison of rationals as a boolean. *)
Definition Qlt_bool (a b : Q) : bool := negb (Qle_bool b a).

(** ** The posting thread: configuration *)

(** The attributes set by [RESTThread.__init__].  [to_int] has already been
    applied, so the tunables are integers, [None] being kept for [stale] and
    [post_interval]. *)
Record RESTThread : Type := {
  protocol_name : string;
  log_success : bool;
  log_failure : bool;
  max_backlog : Z;
  max_tries : Z;
  stale : option Z;
  post_interval : option Z;
  timeout : Z;
  retry_wait : Z
}.

(** ** The staleness and rate gate: [RESTThread.skip_this_post] *)

(** [skip_this_post self now lastpost time_ts] is the pair of the returned
    boolean and of the value of [self.lastpost] afterwards.  [now] is the
    reading of [time.time()]. *)
Definition skip_this_post (self : RESTThread) (now lastpost time_ts : Q)
  : bool * Q :=
  if match stale self with
     | Some s => Qlt_bool (inject_Z s) (now - time_ts)
     | None => false
     end
  then (true, lastpost)
  else
    if match post_interval self with
       | Some p => Qlt_bool (time_ts - lastpost) (inject_Z p)
       | None => false
       end
    then (true, lastpost)
    else (false, time_ts).

(** The two tests of [skip_this_post], as propositions. *)
Definition too_old (self : RESTThread) (now time_ts : Q) : Prop :=
  exists s, stale self = Some s /\ (inject_Z s < now - time_ts)%Q.

Definition too_soon (self : RESTThread) (lastpost time_ts : Q) : Prop :=
  exists p, post_interval self = Some p /\ (time_ts - lastpost < inject_Z p)%Q.

(** The values of [self.lastpost] after each of the records examined by the
    gate, a record being given by the reading of the clock when it is
    examined and by its time stamp. *)
Fixpoint gate_history (self : RESTThread) (lastpost : Q) (examined : list (Q * Q))
  : list Q :=
  match examined with
  | [] => []
  | (now, time_ts) :: examined' =>
      let lastpost' := snd (skip_this_post self now lastpost time_ts) in
      lastpost' :: gate_history self lastpost' examined'
  end.

(** ** The outside world *)

(** What a posting thread sees of an HTTP response: its status code and the
    lines obtained by iterating over it. *)
Record response : Type := {
  code : Z;
  body : list string
}.

(** The primitives through which the threads act on their environment.  A
    world [w : W] is the state of everything outside the thread; a primitive
    that may raise returns its result together with the next world.
    - [time_time] is [time.time()], [time_sleep] is [time.sleep];
    - [urlopen url timeout] is [urllib2.urlopen(request, timeout=...)], the
      time-out being absent in the call without the keyword;
    - [sock_connect server port] is [socket.socket()] followed by
      [connect((server, port))]; [sock_send msg] is [sock.send(msg)],
      [sock_recv] is [sock.recv(1024)] and [sock_close] is [sock.close()]. *)
Class World (W : Type) : Type := {
  time_time : W -> Q;
  time_sleep : Z -> W -> W;
  urlopen : string -> option Z -> W -> result response * W;
  sock_connect : string -> Z -> W -> result unit * W;
  sock_send : string -> W -> result unit * W;
  sock_recv : W -> result unit * W;
  sock_close : W -> W
}.

(** ** The retrying transport *)

(** What a retry loop did, in order. *)
Inductive net_event : Type :=
| Attempt (count : nat)
| Sleep (secs : Z).

Definition is_attempt (ev : net_event) : bool :=
  match ev with
  | Attempt _ => true
  | Sleep _ => false
  end.

(** The number of delivery attempts in a trace. *)
Definition attempts (trace : list net_event) : nat :=
  length (filter (fun ev => is_attempt ev = true) trace).

(** The exceptions caught by the [except] clause of [post_with_retries]:
    [urllib2.URLError], [socket.error], [httplib.BadStatusLine],
    [httplib.IncompleteRead], and their subclasses. *)
Definition is_transport_fault (e : exn) : bool :=
  match e with
  | URLError | HTTPError _ | socket_error | socket_timeout
  | BadStatusLine | IncompleteRead => true
  | _ => false
  end.

Section Transport.
Context {W : Type} `{World W}.

(** [RESTThread.post_request]: the call with a time-out, and the call
    without it when the first one raises [TypeError]. *)
Definition post_request (self : RESTThread) (request : string) (w : W)
  : result response * W :=
  match urlopen request (Some (timeout self)) w with
  | (Raise TypeError, w') => urlopen request None w'
  | r => r
  end.

(** [RESTThread.check_response]: this version does nothing. *)
Definition check_response (_response : response) : result unit := Ok tt.

(** The two methods a protocol may override. *)
Variable post_request_m : string -> W -> result response * W.
Variable check_response_m : response -> result unit.

(** The body of the [try] of one iteration: [Ok true] stands for the
    [return], [Ok false] for falling through to the sleep. *)
Definition post_once (request : string) (w : W) : result bool * W :=
  match post_request_m request w with
  | (Ok _response, w') =>
      if code _response =? 200
      then (_ ← check_response_m _response; Ok true, w')
      else (Ok false, w')
  | (Raise e, w') => (Raise e, w')
  end.

(** The [for _count in range(self.max_tries)] loop with its [else]. *)
Fixpoint retry_loop (self : RESTThread) (request : string)
    (counts : list nat) (w : W) : result unit * W * list net_event :=
  match counts with
  | [] => (Raise FailedPost, w, [])
  | _count :: counts' =>
      match post_once request w with
      | (Ok true, w') => (Ok tt, w', [Attempt _count])
      | (Ok false, w') =>
          let '(r, w'', tr) :=
            retry_loop self request counts' (time_sleep (retry_wait self) w') in
          (r, w'', Attempt _count :: Sleep (retry_wait self) :: tr)
      | (Raise e, w') =>
          if is_transport_fault e
          then
            let '(r, w'', tr) :=
              retry_loop self request counts' (time_sleep (retry_wait self) w') in
            (r, w'', Attempt _count :: Sleep (retry_wait self) :: tr)
          else (Raise e, w', [Attempt _count])
      end
  end.

(** [RESTThread.post_with_retries] *)
Definition post_with_retries (self : RESTThread) (request : string) (w : W)
  : result unit * W * list net_event :=
  retry_loop self request (seq 0 (Z.to_nat (max_tries self))) w.

(** ** What the hypotheses of the retry properties speak about *)

(** An attempt that the loop retries: a response with a status other than
    200, or a transport fault raised by the request or by the validator. *)
Definition attempt_retried (request : string) (w : W) : Prop :=
  match post_once request w with
  | (Ok true, _) => False
  | (Ok false, _) => True
  | (Raise e, _) => is_transport_fault e = true
  end.


End Transport.

(** ** The archive *)

(** The three SQL statements that the posting threads send to the archive. *)
Inductive sql : Type :=
| SumRainAfter
    (* "SELECT SUM(rain), MIN(usUnits), MAX(usUnits) FROM archive
        WHERE dateTime>? AND dateTime<=?" *)
| SumRainFrom
    (* "SELECT SUM(rain), MIN(usUnits), MAX(usUnits) FROM archive
        WHERE dateTime>=? AND dateTime<=?" *)
| RainRateAt.
    (* 'select rainRate from archive where dateTime=?' *)

(** Modelled from the spec: the archive ([weecore.archive], with its method
    [getSql]) is an external collaborator whose code is not among the
    sources.  It is a table of rows with the columns the statements above
    mention; the columns [rain] and [rainRate] may be missing from the
    schema, and their values may be NULL. *)
Record archive_row : Type := {
  row_dateTime : Z;
  row_usUnits : Z;
  row_rain : option Q;
  row_rainRate : option Q
}.

Record Archive : Type := {
  has_rain : bool;
  has_rainRate : bool;
  rows : list archive_row
}.

(** SQL aggregates: over no value at all they are NULL, and [SUM] skips the
    NULL values. *)
Definition sql_sum (column : list (option Q)) : value :=
  match omap id column with
  | [] => VNone
  | x :: xs => VFloat (fold_left Qplus xs x)
  end.

Definition sql_min (column : list Z) : value :=
  match column with
  | [] => VNone
  | x :: xs => VInt (fold_left Z.min xs x)
  end.

Definition sql_max (column : list Z) : value :=
  match column with
  | [] => VNone
  | x :: xs => VInt (fold_left Z.max xs x)
  end.

(** The rows of the time window [start < dateTime <= stop] or, when
    [closed], [start <= dateTime <= stop]. *)
Definition in_window (closed : bool) (start stop : Q) (row : archive_row) : bool :=
  (if closed
   then Qle_bool start (inject_Z (row_dateTime row))
   else Qlt_bool start (inject_Z (row_dateTime row)))
  && Qle_bool (inject_Z (row_dateTime row)) stop.

Definition window (closed : bool) (start stop : Q) (a : Archive) : list archive_row :=
  filter (fun row => in_window closed start stop row = true) (rows a).

(** The row of an aggregate statement: there is always exactly one. *)
Definition sum_rain_row (selected : list archive_row) : list value :=
  [ sql_sum (row_rain <$> selected);
    sql_min (row_usUnits <$> selected);
    sql_max (row_usUnits <$> selected) ].

Definition rainRate_value (row : archive_row) : value :=
  match row_rainRate row with
  | Some q => VFloat q
  | None => VNone
  end.

(** Modelled from the spec: [archive.getSql(sql, args)] runs the statement
    and returns its first row as a tuple, or [None] when there is no row; it
    raises [weedb.OperationalError] when the statement names a column that
    the schema does not have. *)
Definition getSql (a : Archive) (statement : sql) (args : list Q)
  : result (option (list value)) :=
  match statement, args with
  | SumRainAfter, [start; stop] =>
      if has_rain a
      then Ok (Some (sum_rain_row (window false start stop a)))
      else Raise OperationalError
  | SumRainFrom, [start; stop] =>
      if has_rain a
      then Ok (Some (sum_rain_row (window true start stop a)))
      else Raise OperationalError
  | RainRateAt, [ts] =>
      if has_rainRate a
      then
        match filter (fun row => Qeq_bool (inject_Z (row_dateTime row)) ts = true)
                     (rows a) with
        | [] => Ok None
        | row :: _ => Ok (Some [rainRate_value row])
        end
      else Raise OperationalError
  | _, _ => Raise OtherException
  end.

(** ** Python operations on values *)

(** [a == b] *)
Definition py_eq (a b : value) : bool :=
  match a, b with
  | VNone, VNone => true
  | VInt m, VInt n => m =? n
  | VInt m, VFloat q => Qeq_bool (inject_Z m) q
  | VFloat q, VInt n => Qeq_bool q (inject_Z n)
  | VFloat p, VFloat q => Qeq_bool p q
  | VStr s, VStr t => String.eqb s t
  | _, _ => false
  end.

(** [v is not None] *)
Definition is_not_None (v : value) : bool :=
  match v with
  | VNone => false
  | _ => true
  end.

(** [t[i]] for the result of [getSql]: subscripting [None] raises
    [TypeError], an index past the end of a tuple raises [IndexError], which
    is one of the exceptions gathered under [OtherException]. *)
Definition subscript (t : option (list value)) (i : nat) : result value :=
  match t with
  | None => Raise TypeError
  | Some vs =>
      match vs !! i with
      | Some v => Ok v
      | None => Raise OtherException
      end
  end.

(** ** The record enricher: [RESTThread.get_record] *)

Section Enricher.
(** [weeutil.weeutil.startOfDay]: the local midnight before a time stamp.
    The function is not among the sources and depends on the time zone. *)
Variable startOfDay : Q -> Q.

(** [archive.getSql], whatever the archive is. *)
Variable getSql_m : sql -> list Q -> result (option (list value)).

(** One [if not _datadict.has_key(key): ...] block of [get_record]; the
    three blocks differ by the key, the statement and its arguments.  The
    chained comparison [_result[1] == _result[2] == record['usUnits']]
    reads [record['usUnits']] only when its first half holds, and the
    message of the [ValueError] reads it again. *)
Definition rain_block (key : string) (statement : sql) (args : list Q)
    (record _datadict : gmap string value) : result (gmap string value) :=
  if has_key _datadict key then Ok _datadict
  else
    _result ← getSql_m statement args;
    match _result with
    | None => Ok (<[key := VNone]> _datadict)
    | Some _ =>
        sum ← subscript _result 0;
        if is_not_None sum
        then
          lo ← subscript _result 1;
          hi ← subscript _result 2;
          consistent ←
            (if py_eq lo hi
             then units ← getitem record "usUnits"; Ok (py_eq hi units)
             else Ok false);
          if (consistent : bool)
          then Ok (<[key := sum]> _datadict)
          else _ ← getitem record "usUnits"; Raise ValueError
        else Ok (<[key := VNone]> _datadict)
    end.

(** The clause [except weedb.OperationalError: pass]: the dictionary is
    returned as it was when the exception was raised. *)
Definition or_pass (_datadict : gmap string value)
    (m : result (gmap string value)) (k : gmap string value -> result (gmap string value))
  : result (gmap string value) :=
  match m with
  | Ok d => k d
  | Raise OperationalError => Ok _datadict
  | Raise e => Raise e
  end.

(** [RESTThread.get_record].  The time stamp is taken to be a number, as
    [startOfDay] and the arguments of the statements need it to be. *)
Definition get_record (record : gmap string value) : result (gmap string value) :=
  _time_ts ← (v ← getitem record "dateTime"; as_number v);
  let _sod_ts := startOfDay _time_ts in
  let _datadict := record in
  or_pass _datadict
    (rain_block "hourRain" SumRainAfter
                [(_time_ts - 3600)%Q; _time_ts] record _datadict)
    (fun d1 =>
  or_pass d1
    (rain_block "rain24" SumRainAfter
                [(_time_ts - 24 * 3600)%Q; _time_ts] record d1)
    (fun d2 =>
  or_pass d2
    (rain_block "dayRain" SumRainFrom
                [_sod_ts; _time_ts] record d2)
    (fun d3 => Ok d3))).
End Enricher.

(** *** The derived fields and their windows *)

(** A derived field of [get_record]: its key and the time window of its
    statement, closed or open at its start. *)
Record rain_field : Type := {
  field : string;
  closed : bool;
  start : Q;
  stop : Q
}.

(** The three derived fields for a record with the time stamp [time_ts], in
    the order of the source. *)
Definition rain_fields (startOfDay : Q -> Q) (time_ts : Q) : list rain_field :=
  [ {| field := "hourRain"; closed := false;
       start := (time_ts - 3600)%Q; stop := time_ts |};
    {| field := "rain24"; closed := false;
       start := (time_ts - 24 * 3600)%Q; stop := time_ts |};
    {| field := "dayRain"; closed := true;
       start := startOfDay time_ts; stop := time_ts |} ].

(** The rows of the window of a field, the sum of their rain and whether
    their unit systems all are the unit system [units] of a record. *)
Definition window_rows (a : Archive) (f : rain_field) : list archive_row :=
  window (closed f) (start f) (stop f) a.

Definition rain_sum (a : Archive) (f : rain_field) : value :=
  sql_sum (row_rain <$> window_rows a f).

Definition units_consistent (a : Archive) (f : rain_field) (units : value) : bool :=
  py_eq (sql_min (row_usUnits <$> window_rows a f))
        (sql_max (row_usUnits <$> window_rows a f))
  && py_eq (sql_max (row_usUnits <$> window_rows a f)) units.

(** The field is missing from the record, its rain sum is not NULL, and
    the units of its rows are not those of the record. *)
Definition unit_fault (a : Archive) (record : gmap string value) (units : value)
    (f : rain_field) : bool :=
  negb (has_key record (field f))
  && is_not_None (rain_sum a f)
  && negb (units_consistent a f units).

(** ** The destination worker: [RESTThread.run_loop] *)

Inductive priority : Type := LOG_CRIT | LOG_ERR | LOG_INFO | LOG_DEBUG.

(** What the worker did, in order: items dropped by the backlog check,
    records turned down by the gate, calls of [process_record] with what
    they returned or raised, sleeps, and the lines [run_loop] itself writes
    to the system log. *)
Inductive loop_event : Type :=
| Discarded (_record : gmap string value)
| Skipped (_record : gmap string value)
| Processed (_record : gmap string value) (outcome : result unit)
| Slept (secs : Z)
| Logged (level : priority).

(** How a run of the loop over the queued items ends:
    - [Stopped]: a [None] was taken from the queue, [run_loop] returned;
    - [Crashed e]: [process_record] raised [e], which is neither [BadLogin]
      nor [FailedPost], and [run_loop] returned;
    - [Uncaught e]: [e] was raised outside the [try] statement and leaves
      [run_loop];
    - [Blocked]: the queue is empty and [self.queue.get()] waits. *)
Inductive exit_kind : Type :=
| Stopped
| Crashed (e : exn)
| Uncaught (e : exn)
| Blocked.

Record run (W : Type) : Type := {
  how : exit_kind;
  lastpost_end : Q;
  world_end : W;
  queue_end : list (option (gmap string value));
  events : list loop_event
}.
Arguments how {W} _.
Arguments lastpost_end {W} _.
Arguments world_end {W} _.
Arguments queue_end {W} _.
Arguments events {W} _.

Definition emit {W : Type} (evs : list loop_event) (r : run W) : run W :=
  {| how := how r;
     lastpost_end := lastpost_end r;
     world_end := world_end r;
     queue_end := queue_end r;
     events := evs ++ events r |}.

Section Worker.
Context {W : Type} `{World W}.

(** The archive handed to [run_loop], of whatever type. *)
Context {A : Type}.

(** [self.process_record], the method a protocol provides. *)
Variable process_record_m : gmap string value -> A -> W -> result unit * W.

(** The two nested [while True] loops.  Each turn of either loop starts
    with [self.queue.get()], so that both are one recursion on the queued
    items: an item is dropped when more than [max_backlog] items are
    behind it, and is otherwise handed to the gate and to
    [process_record].  A record without the key [dateTime] makes
    [_record['dateTime']] raise [KeyError] outside the [try] statement.  The
    time stamp is taken to be a number: on any other value the model raises
    [TypeError], as the arithmetic of the gate does in Python as soon as one
    of the two thresholds is set. *)
Fixpoint run_loop (self : RESTThread) (archive : A) (lastpost : Q)
    (queue : list (option (gmap string value))) (w : W) : run W :=
  match queue with
  | [] =>
      {| how := Blocked; lastpost_end := lastpost; world_end := w;
         queue_end := []; events := [] |}
  | None :: queue' =>
      {| how := Stopped; lastpost_end := lastpost; world_end := w;
         queue_end := queue'; events := [] |}
  | Some _record :: queue' =>
      if Z.of_nat (length queue') <=? max_backlog self
      then
        match (v ← getitem _record "dateTime"; as_number v) with
        | Raise e =>
            {| how := Uncaught e; lastpost_end := lastpost; world_end := w;
               queue_end := queue'; events := [] |}
        | Ok time_ts =>
            match skip_this_post self (time_time w) lastpost time_ts with
            | (true, lastpost') =>
                emit [Skipped _record]
                     (run_loop self archive lastpost' queue' w)
            | (false, lastpost') =>
                match process_record_m _record archive w with
                | (Ok _, w') =>
                    emit (Processed _record (Ok tt)
                            :: if log_success self then [Logged LOG_INFO] else [])
                         (run_loop self archive lastpost' queue' w')
                | (Raise BadLogin, w') =>
                    emit [Processed _record (Raise BadLogin);
                          Logged LOG_ERR; Slept 3600]
                         (run_loop self archive lastpost' queue'
                                   (time_sleep 3600 w'))
                | (Raise FailedPost, w') =>
                    emit (Processed _record (Raise FailedPost)
                            :: if log_failure self then [Logged LOG_ERR] else [])
                         (run_loop self archive lastpost' queue' w')
                | (Raise e, w') =>
                    {| how := Crashed e; lastpost_end := lastpost';
                       world_end := w'; queue_end := queue';
                       events := [Processed _record (Raise e);
                                  Logged LOG_CRIT; Logged LOG_CRIT] |}
                end
            end
        end
      else
        emit [Discarded _record] (run_loop self archive lastpost queue' w)
  end.

(** ** The default [RESTThread.process_record] *)

(** [weecore.units.to_US], which is not among the sources. *)
Variable to_US : gmap string value -> result (gmap string value).

(** The methods it calls on [self]. *)
Variable get_record_m : gmap string value -> A -> result (gmap string value).
Variable format_url_m : gmap string value -> result string.
Variable post_request_m : string -> W -> result response * W.
Variable check_response_m : response -> result unit.

Definition process_record (self : RESTThread)
    (record : gmap string value) (archive : A) (w : W) : result unit * W :=
  match (_full_record ← get_record_m record archive;
         _us_record ← to_US _full_record;
         format_url_m _us_record) with
  | Raise e => (Raise e, w)
  | Ok _url =>
      let '(r, w', _) :=
        post_with_retries post_request_m check_response_m self _url w in
      (r, w')
  end.
End Worker.

(** The records that a run handed to [process_record], and those it
    dropped by the backlog check. *)
Definition processed (evs : list loop_event) : list (gmap string value) :=
  omap (fun ev => match ev with Processed r _ => Some r | _ => None end) evs.

Definition discarded (evs : list loop_event) : list (gmap string value) :=
  omap (fun ev => match ev with Discarded r => Some r | _ => None end) evs.

Definition slept (evs : list loop_event) : list Z :=
  omap (fun ev => match ev with Slept s => Some s | _ => None end) evs.

(** ** Strings *)

(** The text of [s] before the first occurrence of the character [c], and
    the text from that occurrence on. *)
Fixpoint before (c : Ascii.ascii) (s : string) : string :=
  match s with
  | EmptyString => EmptyString
  | String x s' => if Ascii.eqb x c then EmptyString else String x (before c s')
  end.

Fixpoint from (c : Ascii.ascii) (s : string) : string :=
  match s with
  | EmptyString => EmptyString
  | String x s' => if Ascii.eqb x c then s else from c s'
  end.

(** Whether the character [c] occurs in [s]. *)
Fixpoint contains (c : Ascii.ascii) (s : string) : bool :=
  match s with
  | EmptyString => false
  | String x s' => Ascii.eqb x c || contains c s'
  end.

(** [s.split(sep)] for a separator of one character. *)
Fixpoint split_on (sep : Ascii.ascii) (s : string) : list string :=
  match s with
  | EmptyString => [EmptyString]
  | String x s' =>
      if Ascii.eqb x sep then EmptyString :: split_on sep s'
      else
        match split_on sep s' with
        | [] => [String x EmptyString]
        | piece :: pieces => String x piece :: pieces
        end
  end.

(** [weewx.__version__], from [bin/weewx/__init__.py]. *)
Definition __version__ : string := "3.0.0a1".

(** ** The Ambient protocol: [AmbientThread] *)

Module Ambient.

Record AmbientThread : Type := {
  base : RESTThread;
  station : string;
  password : string;
  server_url : string
}.

(** [AmbientThread._formats], in the order of the source text.  Python
    iterates over the keys of this dictionary in an order of its own, so
    the functions below take the order as an argument. *)
Definition _formats : list (string * string) :=
  [ ("dateTime",    "dateutc=%s");
    ("barometer",   "baromin=%.3f");
    ("outTemp",     "tempf=%.1f");
    ("outHumidity", "humidity=%03.0f");
    ("windSpeed",   "windspeedmph=%03.0f");
    ("windDir",     "winddir=%03.0f");
    ("windGust",    "windgustmph=%03.0f");
    ("dewpoint",    "dewptf=%.1f");
    ("hourRain",    "rainin=%.2f");
    ("dayRain",     "dailyrainin=%.2f");
    ("radiation",   "solarradiation=%.2f");
    ("UV",          "UV=%.2f");
    ("realtime",    "realtime=%s");
    ("rtfreq",      "rtfreq=%s") ].

Section Formatter.
(** [weecore.debug] and [weecore.US], from a module that is not among
    the sources. *)
Variable debug : bool.
Variable US : Z.

(** The text that a conversion specification such as ["%.3f"] yields for
    a value, and [urllib.quote(datetime.datetime.utcfromtimestamp(v)
    .isoformat('+'), '-+')].  Both are taken as total. *)
Variable convert : string -> value -> string.
Variable quote_utc : value -> value.

(** [fmt % v] for a format with one conversion, which ends it. *)
Definition percent (fmt : string) (v : value) : string :=
  before "%"%char fmt +:+ convert (from "%"%char fmt) v.

(** One turn of the loop over the supported types: the pieces it appends
    to [_liststr]. *)
Definition format_type (record : gmap string value) (entry : string * string)
  : list string :=
  let _key := fst entry in
  let _v := dict_get record _key in
  if is_not_None _v
  then [percent (snd entry)
                (if String.eqb _key "dateTime" then quote_utc _v else _v)]
  else [].

(** [_liststr] at the end of [format_url]. *)
Definition liststr (self : AmbientThread) (order : list (string * string))
    (record : gmap string value) : list string :=
  [ "action=updateraw";
    percent "ID=%s" (VStr (station self));
    percent "PASSWORD=%s" (VStr (password self));
    percent "softwaretype=weewx-%s" (VStr __version__) ]
  ++ flat_map (format_type record) order.

Definition format_url_in (order : list (string * string))
    (self : AmbientThread) (record : gmap string value) : result string :=
  _ ← (if debug
       then units ← getitem record "usUnits";
            if py_eq units (VInt US) then Ok tt else Raise AssertionError
       else Ok tt);
  let _urlquery := String.concat "&" (liststr self order record) in
  Ok (server_url self +:+ "?" +:+ _urlquery).

Definition format_url : AmbientThread -> gmap string value -> result string :=
  format_url_in _formats.
End Formatter.

(** [AmbientThread.check_response]: the loop over the lines of the
    response. *)
Fixpoint check_lines (lines : list string) : result unit :=
  match lines with
  | [] => Ok tt
  | line :: lines' =>
      if String.prefix "ERROR" line || String.prefix "INVALID" line
      then Raise BadLogin
      else check_lines lines'
  end.

Definition check_response (_response : response) : result unit :=
  check_lines (body _response).

(** The parameter name of a piece ["name=value"] of the query, and the
    names in a list of pieces. *)
Definition param_key (piece : string) : string := before "="%char piece.

Definition param_keys (pieces : list string) : list string :=
  param_key <$> pieces.

(** Reading a URL back: the query is what follows the first question mark,
    its pieces are separated by ampersands. *)
Definition query_string (url : string) : string :=
  match from "?"%char url with
  | String _ query => query
  | EmptyString => EmptyString
  end.

Definition query_keys (url : string) : list string :=
  param_keys (split_on "&"%char (query_string url)).



End Ambient.

(** ** CWOP: [CWOPThread] *)

(** [isinstance(e, IOError)]: since Python 2.6 [socket.error] derives from
    [IOError], as [urllib2.URLError] and the [IOError] subclasses of
    [weecore.restx] do. *)
Definition is_IOError (e : exn) : bool :=
  match e with
  | FailedPost | ConnectError | SendError
  | URLError | HTTPError _ | socket_error | socket_timeout => true
  | _ => false
  end.

(** The exceptions that leave [_get_connect], [_send] and an exchange:
    the input/output errors of the socket are turned into [ConnectError]
    and [SendError]. *)
Definition converted (r : result unit) : Prop :=
  match r with
  | Ok _ => True
  | Raise e => e = ConnectError \/ e = SendError \/ is_IOError e = false
  end.

Module CWOP.

Record CWOPThread : Type := {
  base : RESTThread;
  station : string;
  passcode : string;
  server_list : list string;
  station_type : string
}.

(** One connection attempt: the server, the port and [_count]. *)
Definition attempt : Type := string * Z * nat.

Section Sender.
Context {W : Type} `{World W}.

(** [int(s)], which raises [ValueError] on a malformed numeral. *)
Variable int : string -> result Z.

(** [_server, _port_str = _serv_addr_str.split(":")] followed by
    [_port = int(_port_str)]: unpacking anything but two pieces raises
    [ValueError]. *)
Definition parse_address (_serv_addr_str : string) : result (string * Z) :=
  match split_on ":"%char _serv_addr_str with
  | [_server; _port_str] => _port ← int _port_str; Ok (_server, _port)
  | _ => Raise ValueError
  end.

(** [CWOPThread._get_connect] *)
Definition _get_connect (server : string) (port : Z) (w : W) : result unit * W :=
  match sock_connect server port w with
  | (Ok _sock, w') => (Ok _sock, w')
  | (Raise e, w') =>
      if is_IOError e then (Raise ConnectError, sock_close w')
      else (Raise e, w')
  end.

(** [CWOPThread._send]: a failure to read the answer of the server is
    logged, and the method returns. *)
Definition _send (msg : string) (w : W) : result unit * W :=
  match sock_send msg w with
  | (Raise e, w') =>
      if is_IOError e then (Raise SendError, w') else (Raise e, w')
  | (Ok _, w') =>
      match sock_recv w' with
      | (Ok _resp, w'') => (Ok tt, w'')
      | (Raise e, w'') =>
          if is_IOError e then (Ok tt, w'') else (Raise e, w'')
      end
  end.

(** The body of the outer [try] of [send_packet]: connect, then send the
    login and the packet, the socket being closed whatever happens
    ([finally]).  [Ok tt] stands for the [return]. *)
Definition exchange (login tnc_packet : string) (server : string) (port : Z)
    (w : W) : result unit * W :=
  match _get_connect server port w with
  | (Raise e, w1) => (Raise e, w1)
  | (Ok _sock, w1) =>
      match _send login w1 with
      | (Raise e, w2) => (Raise e, sock_close w2)
      | (Ok _, w2) =>
          match _send tnc_packet w2 with
          | (r, w3) => (r, sock_close w3)
          end
      end
  end.

(** The loop [for _count in range(self.max_tries)] for one server:
    [None] when it ends without a [return] or an uncaught exception. *)
Fixpoint try_server (login tnc_packet : string) (server : string) (port : Z)
    (counts : list nat) (w : W) : option (result unit) * W * list attempt :=
  match counts with
  | [] => (None, w, [])
  | _count :: counts' =>
      match exchange login tnc_packet server port w with
      | (Ok _, w') => (Some (Ok tt), w', [(server, port, _count)])
      | (Raise e, w') =>
          match e with
          | ConnectError | SendError =>
              let '(r, w'', tr) :=
                try_server login tnc_packet server port counts' w' in
              (r, w'', (server, port, _count) :: tr)
          | _ => (Some (Raise e), w', [(server, port, _count)])
          end
      end
  end.

(** The loop over [self.server_list], and the [raise] after it. *)
Fixpoint try_servers (max_tries : Z) (login tnc_packet : string)
    (servers : list string) (w : W) : result unit * W * list attempt :=
  match servers with
  | [] => (Raise FailedPost, w, [])
  | _serv_addr_str :: servers' =>
      match parse_address _serv_addr_str with
      | Raise e => (Raise e, w, [])
      | Ok (_server, _port) =>
          match try_server login tnc_packet _server _port
                           (seq 0 (Z.to_nat max_tries)) w with
          | (Some r, w', tr) => (r, w', tr)
          | (None, w', tr) =>
              let '(r, w'', tr') :=
                try_servers max_tries login tnc_packet servers' w' in
              (r, w'', tr ++ tr')
          end
      end
  end.

(** [CWOPThread.send_packet] *)
Definition send_packet (self : CWOPThread) (login tnc_packet : string) (w : W)
  : result unit * W * list attempt :=
  try_servers (max_tries (base self)) login tnc_packet (server_list self) w.

(** *** The attempts [send_packet] can make *)

(** The attempts in the order of the nested loops, for a list of
    addresses that parse. *)
Fixpoint schedule (max_tries : Z) (servers : list string) : list attempt :=
  match servers with
  | [] => []
  | _serv_addr_str :: servers' =>
      match parse_address _serv_addr_str with
      | Raise _ => []
      | Ok (_server, _port) =>
          ((fun _count => (_server, _port, _count)) <$> seq 0 (Z.to_nat max_tries))
          ++ schedule max_tries servers'
      end
  end.



(** The attempts of a list made one after the other, as the two nested
    loops make them: stop at the first attempt that does not end with a
    connect or send fault. *)
Fixpoint run_schedule (login tnc_packet : string) (todo : list attempt) (w : W)
  : result unit * W * list attempt :=
  match todo with
  | [] => (Raise FailedPost, w, [])
  | a :: todo' =>
      match exchange login tnc_packet (fst (fst a)) (snd (fst a)) w with
      | (Ok _, w') => (Ok tt, w', [a])
      | (Raise e, w') =>
          match e with
          | ConnectError | SendError =>
              let '(r, w'', tr) := run_schedule login tnc_packet todo' w' in
              (r, w'', a :: tr)
          | _ => (Raise e, w', [a])
          end
      end
  end.
End Sender.
End CWOP.

(** ** AWEKAS: [AWEKASThread] *)

Module AWEKAS.

Record AWEKASThread : Type := {
  base : RESTThread;
  username : string;
  password : string;
  language : string;
  server_url : string;
  skip_upload : bool
}.

Section Enricher.
Variable startOfDay : Q -> Q.
Variable getSql_m : sql -> list Q -> result (option (list value)).

(** [AWEKASThread.get_record]: the [else] clause of the [try] statement
    is outside the reach of its [except] clause. *)
Definition get_record (record : gmap string value) : result (gmap string value) :=
  r ← get_record startOfDay getSql_m record;
  ts ← (v ← getitem r "dateTime"; as_number v);
  match getSql_m RainRateAt [ts] with
  | Raise OperationalError => Ok r
  | Raise e => Raise e
  | Ok rr => v ← subscript rr 0; Ok (<["rainRate" := v]> r)
  end.
End Enricher.

(** [AWEKASThread.check_response] *)
Fixpoint check_lines (lines : list string) : result unit :=
  match lines with
  | [] => Ok tt
  | line :: lines' =>
      if String.prefix "Benutzer/Passwort Fehler" line then Raise BadLogin
      else if negb (String.prefix "OK" line) then Raise FailedPost
      else check_lines lines'
  end.

Definition check_response (_response : response) : result unit :=
  check_lines (body _response).

Section Poster.
Context {W : Type} `{World W}.
Context {A : Type}.

Variable get_record_m : gmap string value -> A -> result (gmap string value).

(** [AWEKASThread.get_url]: unit conversion, MD5 digest and number
    formatting, none of which is modelled. *)
Variable get_url : gmap string value -> result string.

(** [AWEKASThread.process_record] *)
Definition process_record (self : AWEKASThread)
    (record : gmap string value) (archive : A) (w : W) : result unit * W :=
  match (r ← get_record_m record archive; get_url r) with
  | Raise e => (Raise e, w)
  | Ok url =>
      if skip_upload self then (Ok tt, w)
      else
        let '(r, w', _) :=
          post_with_retries (post_request (base self)) check_response
                            (base self) url w in
        (r, w')
  end.
End Poster.
End AWEKAS.

(** ** A world for running the definitions *)

(** A thread with the default tunables of [RESTThread.__init__], except for
    [max_backlog], [stale] and [post_interval]. *)
Definition thread_with (backlog : Z) (stale_age interval : option Z) : RESTThread :=
  {| protocol_name := "PWSWeather";
     log_success := true;
     log_failure := true;
     max_backlog := backlog;
     max_tries := 3;
     stale := stale_age;
     post_interval := interval;
     timeout := 10;
     retry_wait := 5 |}.

(** A record that holds a time stamp and the US unit system. *)
Definition record_at (ts : Z) : gmap string value :=
  <["dateTime" := VInt ts]> (<["usUnits" := VInt 1]> ∅).

(** A world that follows a script: the clock, the outcomes of the coming
    calls of [urlopen], and the outcomes of the coming socket calls
    (connect, send and receive alike).  Once a script is exhausted the
    network is down. *)
Record scripted : Type := {
  clock : Q;
  http_script : list (result response);
  sock_script : list (result unit)
}.

Definition next_http (w : scripted) : result response * scripted :=
  match http_script w with
  | [] => (Raise URLError, w)
  | r :: rest =>
      (r, {| clock := clock w; http_script := rest; sock_script := sock_script w |})
  end.

Definition next_sock (w : scripted) : result unit * scripted :=
  match sock_script w with
  | [] => (Raise socket_error, w)
  | r :: rest =>
      (r, {| clock := clock w; http_script := http_script w; sock_script := rest |})
  end.

#[global] Instance scripted_world : World scripted := {|
  time_time := clock;
  time_sleep := fun secs w =>
    {| clock := (clock w + inject_Z secs)%Q;
       http_script := http_script w;
       sock_script := sock_script w |};
  urlopen := fun _ _ => next_http;
  sock_connect := fun _ _ => next_sock;
  sock_send := fun _ => next_sock;
  sock_recv := next_sock;
  sock_close := fun w => w
|}.

(** The world at time [now] in which the network is down. *)
Definition quiet (now : Q) : scripted :=
  {| clock := now; http_script := []; sock_script := [] |}.

(** Archives for running the enricher.  [wet_archive] holds three rows in
    US units (1) with rain; [dry_metric_archive] holds one row in metric
    units (16) whose rain is NULL. *)
Definition row_at (ts units : Z) (rain : option Q) : archive_row :=
  {| row_dateTime := ts; row_usUnits := units;
     row_rain := rain; row_rainRate := None |}.

Definition wet_archive : Archive :=
  {| has_rain := true; has_rainRate := true;
     rows := [ row_at 3600 1 (Some (1 # 10));
               row_at 5400 1 (Some (2 # 10));
               row_at 7200 1 (Some (3 # 10)) ] |}.

Definition dry_metric_archive : Archive :=
  {| has_rain := true; has_rainRate := true;
     rows := [ row_at 7200 16 None ] |}.

(** A start of day for running the enricher: midnight UTC. *)
Definition utc_midnight (ts : Q) : Q :=
  inject_Z (86400 * (Qfloor ts / 86400)).



Definition pws : Ambient.AmbientThread :=
  {| Ambient.base := thread_with 0 None None;
     Ambient.station := "KORHOODR3";
     Ambient.password := "secret";
     Ambient.server_url := "http://www.pwsweather.com/pwsupdate/pwsupdate.php" |}.

(** A CWOP thread with the default servers of [StdCWOP], a stand-in for
    [int] that knows their two ports, and a world in which the first
    connection goes through. *)
Definition cwop : CWOP.CWOPThread :=
  {| CWOP.base := thread_with 0 None None;
     CWOP.station := "CW1234";
     CWOP.passcode := "-1";
     CWOP.server_list := ["cwop.aprs.net:14580"; "cwop.aprs.net:23"];
     CWOP.station_type := "Vantage" |}.

Definition known_port (s : string) : result Z :=
  if String.eqb s "14580" then Ok 14580
  else if String.eqb s "23" then Ok 23
  else Raise ValueError.


(** An AWEKAS thread, a stand-in for its [get_url], and what the enricher
    of the base class returns for a record, the empty record standing for
    an exception. *)
Definition awekas : AWEKAS.AWEKASThread :=
  {| AWEKAS.base := thread_with 10 None (Some 300);
     AWEKAS.username := "user";
     AWEKAS.password := "secret";
     AWEKAS.language := "de";
     AWEKAS.server_url := "http://data.awekas.at/eingabe_pruefung.php";
     AWEKAS.skip_upload := false |}.

Definition some_url (_r : gmap string value) : result string :=
  Ok "http://data.awekas.at/eingabe_pruefung.php?val=user".

Definition enriched (a : Archive) (record : gmap string value) : gmap string value :=
  match get_record utc_midnight (getSql a) record with
  | Ok r => r
  | Raise _ => ∅
  end.

(** A [process_record] that always succeeds, for running the loop. *)
Definition always_published (_record : gmap string value) (_archive : unit)
    (w : scripted) : result unit * scripted := (Ok tt, w).

(** A [process_record] that always meets a bad login. *)
Definition always_bad_login (_record : gmap string value) (_archive : unit)
    (w : scripted) : result unit * scripted := (Raise BadLogin, w).

(** A world in which the server answers a bad login with status 200. *)
Definition rejecting (now : Q) : scripted :=
  {| clock := now;
     http_script := [Ok {| code := 200; body := ["INVALIDPASSWORDID|Password"] |}];
     sock_script := [] |}.

(** ** Reading a run of the worker *)

(** The records of a queue that come before its first [None]. *)
Fixpoint before_stop (queue : list (option (gmap string value)))
  : list (gmap string value) :=
  match queue with
  | Some _record :: queue' => _record :: before_stop queue'
  | _ => []
  end.

(** The records that a run took from the queue and dropped, skipped or
    handed to [process_record], in the order of the events; those it
    skipped. *)
Definition examined (evs : list loop_event) : list (gmap string value) :=
  omap (fun ev =>
          match ev with
          | Discarded r | Skipped r | Processed r _ => Some r
          | _ => None
          end) evs.

Definition skipped (evs : list loop_event) : list (gmap string value) :=
  omap (fun ev => match ev with Skipped r => Some r | _ => None end) evs.

(** The time stamp of a record, and whether it has one. *)
Definition stamp_of (_record : gmap string value) : result Q :=
  v ← getitem _record "dateTime"; as_number v.

Definition stamp (_record : gmap string value) : Q :=
  match stamp_of _record with
  | Ok time_ts => time_ts
  | Raise _ => 0%Q
  end.

Definition has_stamp (_record : gmap string value) : Prop :=
  exists time_ts, stamp_of _record = Ok time_ts.

(** The outcomes of [process_record] after which [run_loop] goes on. *)
Definition goes_on (outcome : result unit) : bool :=
  match outcome with
  | Ok _ | Raise BadLogin | Raise FailedPost => true
  | Raise _ => false
  end.

(** What [run_loop] writes and does after [process_record] ended with an
    outcome, and the world in which it goes on. *)
Definition after_outcome (self : RESTThread) (outcome : result unit)
  : list loop_event :=
  match outcome with
  | Ok _ => if log_success self then [Logged LOG_INFO] else []
  | Raise BadLogin => [Logged LOG_ERR; Slept 3600]
  | Raise FailedPost => if log_failure self then [Logged LOG_ERR] else []
  | Raise _ => [Logged LOG_CRIT; Logged LOG_CRIT]
  end.

Definition world_after_outcome {W : Type} `{World W} (outcome : result unit) (w : W) : W :=
  match outcome with
  | Raise BadLogin => time_sleep 3600 w
  | _ => w
  end.



(** The number of sleeps in the trace of a retry loop. *)
Definition sleeps (trace : list net_event) : nat :=
  length (filter (fun ev => is_attempt ev = false) trace).

(** ** Quoting for a URL: [urllib.quote_plus] *)

(** The characters that [urllib.quote] never quotes: the letters, the
    digits and ["_.-"]. *)
Definition always_safe (c : Ascii.ascii) : bool :=
  let n := Ascii.N_of_ascii c in
  ((65 <=? n) && (n <=? 90) || (97 <=? n) && (n <=? 122)
   || (48 <=? n) && (n <=? 57) || (n =? 95) || (n =? 46) || (n =? 45))%N.

Definition hex_digit (n : N) : Ascii.ascii :=
  Ascii.ascii_of_N (if (n <? 10)%N then 48 + n else 55 + n)%N.

(** ['%%%02X' % ord(c)] *)
Definition percent_encode (c : Ascii.ascii) : string :=
  let n := Ascii.N_of_ascii c in
  String "%"%char
    (String (hex_digit (n / 16)%N) (String (hex_digit (n mod 16)%N) EmptyString)).

(** [urllib.quote_plus(s, safe)] on a byte string: a space becomes a plus
    sign, the characters that are always safe and those of [safe] are kept,
    and any other character is written as a percent sign and its two
    hexadecimal digits. *)
Fixpoint quote_plus (s : string) (safe : string) : string :=
  match s with
  | EmptyString => EmptyString
  | String c s' =>
      (if Ascii.eqb c " "%char then "+"
       else if always_safe c || contains c safe then String c EmptyString
       else percent_encode c)
      +:+ quote_plus s' safe
  end.

(** ** The station registry: [StationRegistryThread] *)

Module StationRegistry.

(** The attributes are kept as values: [latitude] and [longitude] are what
    [to_float] made of the arguments, a number or [None], and the others
    are whatever the caller passed. *)
Record StationRegistryThread : Type := {
  base : RESTThread;
  station_url : value;
  latitude : value;
  longitude : value;
  server_url : string;
  description : value;
  station_type : value;
  station_model : value
}.

Section Formatter.
(** [platform.python_version()], [platform.platform()] and [weecore.US]. *)
Variable python_version : string.
Variable platform : string.
Variable US : Z.

(** The text that a conversion specification yields for a value, taken as
    total. *)
Variable convert : string -> value -> string.

(** [StationRegistryThread.get_record]: the record and the archive it is
    given are not used. *)
Definition get_record {A : Type} (self : StationRegistryThread)
    (dummy_record : gmap string value) (dummy_archive : A) : gmap string value :=
  let _record : gmap string value := ∅ in
  let _record := <["station_url" := station_url self]> _record in
  let _record := <["description" := description self]> _record in
  let _record := <["latitude" := latitude self]> _record in
  let _record := <["longitude" := longitude self]> _record in
  let _record := <["station_type" := station_type self]> _record in
  let _record := <["station_model" := station_model self]> _record in
  let _record := <["python_info" := VStr python_version]> _record in
  let _record := <["platform_info" := VStr platform]> _record in
  let _record := <["weewx_info" := VStr __version__]> _record in
  let _record := <["usUnits" := VInt US]> _record in
  _record.

(** [StationRegistryThread._formats], in the order of the source text; the
    order in which Python visits the keys is an argument of the functions
    below. *)
Definition _formats : list (string * string) :=
  [ ("station_url",   "station_url=%s");
    ("description",   "description=%s");
    ("latitude",      "latitude=%.4f");
    ("longitude",     "longitude=%.4f");
    ("station_type",  "station_type=%s");
    ("station_model", "station_model=%s");
    ("python_info",   "python_info=%s");
    ("platform_info", "platform_info=%s");
    ("weewx_info",    "weewx_info=%s") ].

(** The loop of [format_url] over the types still to visit, [_liststr]
    holding the pieces appended so far. *)
Fixpoint format_types (record : gmap string value) (order : list (string * string))
    (_liststr : list string) : result (list string) :=
  match order with
  | [] => Ok _liststr
  | entry :: order' =>
      v ← getitem record (fst entry);
      format_types record order'
        (if is_not_None v
         then _liststr ++ [quote_plus (Ambient.percent convert (snd entry) v) "="]
         else _liststr)
  end.

Definition format_url_in (order : list (string * string))
    (self : StationRegistryThread) (record : gmap string value) : result string :=
  _liststr ← format_types record order [];
  let _urlquery := String.concat "&" _liststr in
  Ok (server_url self +:+ "?" +:+ _urlquery).

Definition format_url : StationRegistryThread -> gmap string value -> result string :=
  format_url_in _formats.
End Formatter.

(** [StationRegistryThread.check_response] *)
Fixpoint check_lines (lines : list string) : result unit :=
  match lines with
  | [] => Ok tt
  | line :: lines' =>
      if String.prefix "FAIL" line then Raise FailedPost
      else check_lines lines'
  end.

Definition check_response (_response : response) : result unit :=
  check_lines (body _response).

(** The pieces of the query for the types of a list that the record maps
    to a value other than [None]. *)
Definition pieces (convert : string -> value -> string)
    (record : gmap string value) (order : list (string * string)) : list string :=
  omap (fun entry : string * string =>
          match record !! fst entry with
          | Some v =>
              if is_not_None v
              then Some (quote_plus (Ambient.percent convert (snd entry) v) "=")
              else None
          | None => None
          end) order.

End StationRegistry.

(** ** WOW: [WOWThread] *)

Module WOW.

Section Poster.
Context {W : Type} `{World W}.

(** [WOWThread.post_request]: the two calls of the base class, with the
    [HTTPError] of a code 400 or 403 turned into [BadLogin]. *)
Definition post_request (self : Ambient.AmbientThread) (request : string) (w : W)
  : result response * W :=
  match post_request (Ambient.base self) request w with
  | (Raise (HTTPError code), w') =>
      if (code =? 400) || (code =? 403)
      then (Raise BadLogin, w')
      else (Raise (HTTPError code), w')
  | r => r
  end.
End Poster.

End WOW.

(** ** The rapid-fire variant: [AmbientLoopThread] *)

Module AmbientLoop.

Section Enricher.
Variable startOfDay : Q -> Q.
Variable getSql_m : sql -> list Q -> result (option (list value)).

(** [AmbientLoopThread.get_record] *)
Definition get_record (record : gmap string value) : result (gmap string value) :=
  _record ← get_record startOfDay getSql_m record;
  let _record := <["realtime" := VStr "1"]> _record in
  let _record := <["rtfreq" := VStr "2.5"]> _record in
  Ok _record.
End Enricher.

End AmbientLoop.

(** A registry thread with the defaults of its constructor, and a world in
    which the registry answers a post with a failure. *)
Definition registry : StationRegistry.StationRegistryThread :=
  {| StationRegistry.base :=
       {| protocol_name := "StationRegistry";
          log_success := true; log_failure := true;
          max_backlog := 0; max_tries := 3; stale := None;
          post_interval := Some 604800; timeout := 60; retry_wait := 5 |};
     StationRegistry.station_url := VStr "http://www.example.org/weather & more";
     StationRegistry.latitude := VFloat (45 # 1);
     StationRegistry.longitude := VNone;
     StationRegistry.server_url := "http://weewx.com/register/register.cgi";
     StationRegistry.description := VStr "Hood River, Oregon";
     StationRegistry.station_type := VStr "Vantage";
     StationRegistry.station_model := VStr "Unknown" |}.

(** A stand-in for the conversions that writes a string as it is and
    anything else as [0]. *)
Definition show_text (_spec : string) (v : value) : string :=
  match v with
  | VStr s => s
  | _ => "0"
  end.

Definition failing (now : Q) : scripted :=
  {| clock := now;
     http_script := [Ok {| code := 200; body := ["FAIL: bad station_url"] |}];
     sock_script := [] |}.

(** A world in which the server answers with the HTTP error of a code. *)
Definition refusing (now : Q) (code : Z) : scripted :=
  {| clock := now; http_script := [Raise (HTTPError code)]; sock_script := [] |}.


(** A CWOP thread whose second address lacks its port. *)
Definition cwop_typo : CWOP.CWOPThread :=
  {| CWOP.base := thread_with 0 None None;
     CWOP.station := "CW1234";
     CWOP.passcode := "-1";
     CWOP.server_list := ["cwop.aprs.net:14580"; "cwop.aprs.net"];
     CWOP.station_type := "Vantage" |}.

(** The socket calls of a world raise input/output errors only. *)
Definition sockets_raise_IOError (W : Type) `{World W} : Prop :=
  (forall server port w e,
     fst (sock_connect server port w) = Raise e -> is_IOError e = true)
  /\ (forall msg w e, fst (sock_send msg w) = Raise e -> is_IOError e = true)
  /\ (forall w e, fst (sock_recv w) = Raise e -> is_IOError e = true).


(** Whether an outcome is the [FailedPost] of a post given up. *)
Definition is_FailedPost (r : result unit) : bool :=
  match r with
  | Raise FailedPost => true
  | _ => false
  end.

(** A world without a network: every call of [urlopen] and of a socket
    raises an input/output error.  Its state is the clock. *)
Definition offline : Type := Q.

#[global] Instance offline_world : World offline := {|
  time_time := fun w => w;
  time_sleep := fun secs w => (w + inject_Z secs)%Q;
  urlopen := fun _ _ w => (Raise URLError, w);
  sock_connect := fun _ _ w => (Raise socket_error, w);
  sock_send := fun _ w => (Raise socket_error, w);
  sock_recv := fun w => (Raise socket_timeout, w);
  sock_close := fun w => w
|}.


(** ** AWEKAS: the URL of a post *)

Module AWEKASUrl.

(** [AWEKASThread._FORMATS] *)
Definition _FORMATS : gmap string string :=
  list_to_map
    [ ("barometer",   "%.3f");
      ("outTemp",     "%.1f");
      ("outHumidity", "%.0f");
      ("windSpeed",   "%.1f");
      ("windDir",     "%.0f");
      ("windGust",    "%.1f");
      ("dewpoint",    "%.1f");
      ("hourRain",    "%.2f");
      ("dayRain",     "%.2f");
      ("radiation",   "%.2f");
      ("UV",          "%.2f");
      ("rainRate",    "%.2f") ].

Section Formatter.
(** The collaborators of [get_url] that are not among the sources:
    [weecore.units.to_METRIC], the product of a value by an integer,
    [hashlib.md5(...).hexdigest()], [time.gmtime] and [time.strftime],
    the conversions of [%], and [str]. *)
Variable to_METRIC : gmap string value -> result (gmap string value).
Variable times : value -> Z -> value.
Variable md5_hexdigest : string -> string.
Variable time_tt : Type.
Variable gmtime : value -> result time_tt.
Variable strftime : string -> time_tt -> string.
Variable convert : string -> value -> string.
Variable str : value -> string.

(** [str(self.longitude)] and [str(self.latitude)], the two attributes
    being floating-point numbers. *)
Variable longitude_str : string.
Variable latitude_str : string.

(** [AWEKASThread._format] *)
Definition _format (record : gmap string value) (label : string) : string :=
  if has_key record label && is_not_None (dict_get record label)
  then
    match _FORMATS !! label with
    | Some fmt => Ambient.percent convert fmt (dict_get record label)
    | None => str (dict_get record label)
    end
  else "".

(** [record[label] = record[label] * 10] when the record has a value under
    the label. *)
Definition scale (label : string) (record : gmap string value) : gmap string value :=
  if has_key record label && is_not_None (dict_get record label)
  then <[label := times (dict_get record label) 10]> record
  else record.

(** The list [values] of [get_url], for the converted record and the
    broken-down time. *)
Definition values (self : AWEKAS.AWEKASThread) (record : gmap string value)
    (_time_tt : time_tt) : list string :=
  [ AWEKAS.username self;
    md5_hexdigest (AWEKAS.password self);
    strftime "%d.%m.%Y" _time_tt;
    strftime "%H:%M" _time_tt;
    _format record "outTemp";
    _format record "outHumidity";
    _format record "barometer";
    _format record "dayRain";
    _format record "windSpeed";
    _format record "windDir";
    "";
    "";
    "";
    AWEKAS.language self;
    "";
    _format record "windGust";
    _format record "radiation";
    _format record "UV";
    "";
    "";
    "";
    _format record "rainRate";
    Ambient.percent convert "weewx_%s" (VStr __version__);
    longitude_str;
    latitude_str ].

(** [AWEKASThread.get_url] *)
Definition get_url (self : AWEKAS.AWEKASThread) (in_record : gmap string value)
  : result string :=
  record ← to_METRIC in_record;
  let record := scale "dayRain" record in
  let record := scale "rainRate" record in
  _dateTime ← getitem record "dateTime";
  _time_tt ← gmtime _dateTime;
  let valstr := String.concat ";" (values self record _time_tt) in
  Ok (AWEKAS.server_url self +:+ "?val=" +:+ valstr).
End Formatter.

(** The observation that the documentation of [StdAWEKAS] gives for a
    position of the string of values (positions count from 1), for the
    positions that hold an observation. *)
Definition observed : list (nat * string) :=
  [ (5, "outTemp"); (6, "outHumidity"); (7, "barometer"); (8, "dayRain");
    (9, "windSpeed"); (10, "windDir"); (16, "windGust"); (17, "radiation");
    (18, "UV"); (22, "rainRate") ]%nat.

(** The positions that are always left blank. *)
Definition blank : list nat := [11; 12; 13; 15; 19; 20; 21]%nat.

End AWEKASUrl.

(** ** The services that start the threads *)

Module Services.

(** [d.setdefault(key, default)] and [d.pop(key, default)], the dictionary
    being returned as the call leaves it. *)
Definition setdefault (d : gmap string value) (key : string) (default : value)
  : gmap string value :=
  match d !! key with
  | Some _ => d
  | None => <[key := default]> d
  end.

Definition pop (d : gmap string value) (key : string) (default : value)
  : value * gmap string value :=
  (match d !! key with Some v => v | None => default end, delete key d).

(** A Python boolean as a value: [False] and [True] are the integers 0
    and 1. *)
Definition VBool (b : bool) : value := VInt (if b then 1 else 0).

(** The classes of the threads, and the start of a thread: its class, the
    [protocol_name] it is given and the keyword arguments. *)
Inductive thread_class : Type :=
| AmbientThread
| AmbientLoopThread
| CWOPThread
| StationRegistryThread.

Record started : Type := {
  class : thread_class;
  name : string;
  kwargs : gmap string value
}.

Definition rapidfire_url : string :=
  "http://rtupdate.wunderground.com/weatherstation/updateweatherstation.php".
Definition archive_url : string :=
  "http://weatherstation.wunderground.com/weatherstation/updateweatherstation.php".

Section Constructors.
(** [weeutil.weeutil.to_bool], and whether [weecore.archive.prep_database]
    returns; neither is among the sources. *)
Variable to_bool : value -> result bool.
Variable prep_database : result unit.

(** [StdWunderground.__init__].  The argument is the dictionary that
    [accumulateLeaves] returns for the section of the service, or [None]
    when looking up the section raises [KeyError].  The result lists the
    threads started, in order. *)
Definition StdWunderground (section : option (gmap string value))
  : result (list started) :=
  match section with
  | None => Ok []
  | Some _ambient_dict =>
      if negb (has_key _ambient_dict "station" && has_key _ambient_dict "password")
      then Ok []
      else
        _ ← prep_database;
        let '(v, _ambient_dict) := pop _ambient_dict "rapidfire" (VBool false) in
        do_rapidfire_post ← to_bool v;
        let '(v, _ambient_dict) :=
          pop _ambient_dict "archive_post" (VBool (negb do_rapidfire_post)) in
        do_archive_post ← to_bool v;
        let _ambient_dict :=
          if (do_archive_post : bool)
          then setdefault _ambient_dict "server_url" (VStr archive_url)
          else _ambient_dict in
        let threads :=
          if (do_archive_post : bool)
          then [ {| class := AmbientThread; name := "Wunderground-PWS";
                    kwargs := _ambient_dict |} ]
          else [] in
        let _ambient_dict :=
          if (do_rapidfire_post : bool)
          then
            let d := setdefault _ambient_dict "server_url" (VStr rapidfire_url) in
            let d := setdefault d "log_success" (VBool false) in
            let d := setdefault d "log_failure" (VBool false) in
            let d := setdefault d "max_backlog" (VInt 0) in
            let d := setdefault d "max_tries" (VInt 1) in
            d
          else _ambient_dict in
        let threads :=
          if (do_rapidfire_post : bool)
          then threads ++ [ {| class := AmbientLoopThread; name := "Wunderground-RF";
                               kwargs := _ambient_dict |} ]
          else threads in
        Ok threads
  end.
End Constructors.

End Services.

(** A stand-in for [to_bool] that reads the integers and the strings
    [true] and [false]. *)
Definition read_bool (v : value) : result bool :=
  match v with
  | VInt n => Ok (negb (n =? 0))
  | VStr s =>
      if String.eqb s "true" then Ok true
      else if String.eqb s "false" then Ok false
      else Raise ValueError
  | _ => Raise ValueError
  end.

(** The options of a station that asks for both kinds of post. *)
Definition both_posts : gmap string value :=
  <["station" := VStr "KORHOODR3"]>
    (<["password" := VStr "secret"]>
       (<["rapidfire" := VStr "true"]>
          (<["archive_post" := VStr "true"]> ∅))).

(** Stand-ins for the collaborators of [AWEKASThread.get_url]. *)
Definition same_units (record : gmap string value) : result (gmap string value) :=
  Ok record.

Definition times_exact (v : value) (n : Z) : value :=
  match v with
  | VInt m => VInt (m * n)
  | VFloat q => VFloat (q * inject_Z n)
  | _ => v
  end.

Definition no_digest (s : string) : string := "d41d8cd98f00b204e9800998ecf8427e".

Definition epoch (v : value) : result unit :=
  match v with
  | VInt _ | VFloat _ => Ok tt
  | _ => Raise TypeError
  end.

Definition show_epoch (spec : string) (_ : unit) : string :=
  if String.eqb spec "%H:%M" then "00:00" else "01.01.1970".


(** Whether the thread for archive records is among the threads started. *)
Definition starts_archive (threads : list Services.started) : bool :=
  existsb (fun t => match Services.class t with
                    | Services.AmbientThread => true
                    | _ => false
                    end) threads.


(* ================================================================== *)
(** * Properties *)
(* ================================================================== *)

(** ** Arithmetic *)

Lemma Qlt_bool_iff (a b : Q) : Qlt_bool a b = true <-> (a < b)%Q.
Proof.
  unfold Qlt_bool. rewrite negb_true_iff.
  split.
  - intros Hb. apply Qnot_le_lt. intros Hle.
    apply Qle_bool_iff in Hle. congruence.
  - intros Hlt. destruct (Qle_bool b a) eqn:E; [|reflexivity].
    apply Qle_bool_iff in E. exfalso. apply (Qlt_not_le _ _ Hlt E).
Qed.

Lemma Qlt_bool_false_iff (a b : Q) : Qlt_bool a b = false <-> (b <= a)%Q.
Proof.
  unfold Qlt_bool. rewrite negb_false_iff. apply Qle_bool_iff.
Qed.

(** ** The gate *)

Lemma skip_this_post_true self now lastpost time_ts :
  fst (skip_this_post self now lastpost time_ts) = true <->
  too_old self now time_ts \/ too_soon self lastpost time_ts.
Proof.
  unfold skip_this_post, too_old, too_soon.
  destruct (stale self) as [s|], (post_interval self) as [p|]; simpl.
  - destruct (Qlt_bool (inject_Z s) (now - time_ts)) eqn:E1; simpl.
    + apply Qlt_bool_iff in E1. split; [|done]. eauto.
    + apply Qlt_bool_false_iff in E1.
      destruct (Qlt_bool (time_ts - lastpost) (inject_Z p)) eqn:E2; simpl.
      * apply Qlt_bool_iff in E2. split; [|done]. eauto.
      * apply Qlt_bool_false_iff in E2. split; [done|].
        intros [(s' & [= <-] & Hs)|(p' & [= <-] & Hp)]; exfalso.
        -- apply (Qlt_not_le _ _ Hs E1).
        -- apply (Qlt_not_le _ _ Hp E2).
  - destruct (Qlt_bool (inject_Z s) (now - time_ts)) eqn:E1; simpl.
    + apply Qlt_bool_iff in E1. split; [|done]. eauto.
    + apply Qlt_bool_false_iff in E1. split; [done|].
      intros [(s' & [= <-] & Hs)|(p' & [=] & _)]; exfalso.
      apply (Qlt_not_le _ _ Hs E1).
  - destruct (Qlt_bool (time_ts - lastpost) (inject_Z p)) eqn:E2; simpl.
    + apply Qlt_bool_iff in E2. split; [|done]. eauto.
    + apply Qlt_bool_false_iff in E2. split; [done|].
      intros [(s' & [=] & _)|(p' & [= <-] & Hp)]; exfalso.
      apply (Qlt_not_le _ _ Hp E2).
  - split; [done|]. intros [(s' & [=] & _)|(p' & [=] & _)].
Qed.

(** [self.lastpost] after the gate: unchanged by a skip, the time stamp of
    the record otherwise. *)
Lemma skip_this_post_lastpost self now lastpost time_ts :
  snd (skip_this_post self now lastpost time_ts) =
  if fst (skip_this_post self now lastpost time_ts) then lastpost else time_ts.
Proof.
  unfold skip_this_post.
  destruct (match stale self with Some _ => _ | None => _ end); [done|].
  destruct (match post_interval self with Some _ => _ | None => _ end); done.
Qed.

(** C2, as amended.  With a stale threshold [S], [skip_this_post] returns
    true exactly when the record is older than [S] or, [post_interval]
    being set to [P], less than [P] seconds have passed since the last
    accepted record.  A record older than [S] is skipped whatever
    [post_interval] is; when [post_interval] is unset, the result is true
    exactly when the record is older than [S]. *)
Theorem skip_this_post_stale self now lastpost time_ts S :
  stale self = Some S ->
  (fst (skip_this_post self now lastpost time_ts) = true <->
     (inject_Z S < now - time_ts)%Q \/ too_soon self lastpost time_ts)
  /\ ((inject_Z S < now - time_ts)%Q ->
      fst (skip_this_post self now lastpost time_ts) = true)
  /\ (post_interval self = None ->
      (fst (skip_this_post self now lastpost time_ts) = true <->
       (inject_Z S < now - time_ts)%Q)).
Proof.
  intros HS.
  assert (Hold : too_old self now time_ts <-> (inject_Z S < now - time_ts)%Q).
  { unfold too_old. rewrite HS. split.
    - by intros (s & [= <-] & Hs).
    - eauto. }
  rewrite skip_this_post_true, Hold.
  split; [done|]. split; [tauto|].
  intros HP. split; [|tauto].
  intros [Ho|(p & Hp & _)]; [done|congruence].
Qed.

Lemma skip_this_post_stale_witness :
  let self := thread_with 0 (Some 100) (Some 600) in
  stale self = Some 100
  /\ (fst (skip_this_post self 500 0 10) = true <->
      (inject_Z 100 < 500 - 10)%Q \/ too_soon self 0 10)
  /\ ((inject_Z 100 < 500 - 10)%Q ->
      fst (skip_this_post self 500 0 10) = true)
  /\ (post_interval self = None ->
      (fst (skip_this_post self 500 0 10) = true <->
       (inject_Z 100 < 500 - 10)%Q)).
Proof.
  split; [reflexivity|].
  apply (skip_this_post_stale (thread_with 0 (Some 100) (Some 600)) 500 0 10 100).
  reflexivity.
Defined.

(** C2, as stated, does not hold: a fresh record that comes too soon after
    the last accepted one is skipped, so the result is not decided by the
    stale threshold alone. *)
Lemma skip_this_post_stale_counterexample :
  ~ (forall self now lastpost time_ts S,
        stale self = Some S ->
        (fst (skip_this_post self now lastpost time_ts) = true <->
         (inject_Z S < now - time_ts)%Q)).
Proof.
  intros Hclaim.
  pose proof (Hclaim (thread_with 0 (Some 100) (Some 600)) 10%Q 0%Q 10%Q 100 eq_refl)
    as [Hskip _].
  specialize (Hskip eq_refl).
  vm_compute in Hskip. discriminate.
Qed.

(** ** The last accepted time stamp *)

Lemma skip_this_post_pair self now lastpost time_ts :
  skip_this_post self now lastpost time_ts = (true, lastpost) \/
  skip_this_post self now lastpost time_ts = (false, time_ts).
Proof.
  unfold skip_this_post.
  destruct (match stale self with Some _ => _ | None => _ end); [by left|].
  destruct (match post_interval self with Some _ => _ | None => _ end);
    [by left|by right].
Qed.

(** With a non-negative [post_interval], an accepted record is not older than
    the last accepted one. *)
Lemma skip_this_post_monotone self now lastpost time_ts P :
  post_interval self = Some P -> 0 <= P ->
  (lastpost <= snd (skip_this_post self now lastpost time_ts))%Q.
Proof.
  intros HP Hpos.
  rewrite skip_this_post_lastpost.
  destruct (fst (skip_this_post self now lastpost time_ts)) eqn:E.
  - apply Qle_refl.
  - assert (Hns : ~ too_soon self lastpost time_ts).
    { intros Hs.
      assert (fst (skip_this_post self now lastpost time_ts) = true)
        by (apply skip_this_post_true; by right).
      congruence. }
    destruct (Qlt_le_dec (time_ts - lastpost) (inject_Z P)) as [Hlt|Hle].
    + exfalso. apply Hns. exists P. done.
    + assert (0 <= inject_Z P)%Q.
      { change 0%Q with (inject_Z 0). by rewrite <- Zle_Qle. }
      lra.
Qed.

Lemma gate_history_monotone self P :
  post_interval self = Some P -> 0 <= P ->
  forall examined lastpost i a b,
    (lastpost :: gate_history self lastpost examined) !! i = Some a ->
    (lastpost :: gate_history self lastpost examined) !! S i = Some b ->
    (a <= b)%Q.
Proof.
  intros HP Hpos examined.
  induction examined as [|[now ts] examined IH]; intros lastpost i a b Ha Hb.
  - destruct i; simpl in *; discriminate.
  - destruct i as [|i]; simpl in Ha, Hb.
    + injection Ha as <-. injection Hb as <-.
      by eapply skip_this_post_monotone.
    + eapply IH; [exact Ha|exact Hb].
Qed.

(** Records that come in the order of their time stamps, none older than
    the last accepted one, do not lower [self.lastpost] either. *)
Lemma gate_history_in_order self examined :
  forall lastpost,
    StronglySorted Qle (lastpost :: (snd <$> examined)) ->
    forall i a b,
      (lastpost :: gate_history self lastpost examined) !! i = Some a ->
      (lastpost :: gate_history self lastpost examined) !! S i = Some b ->
      (a <= b)%Q.
Proof.
  induction examined as [|[now ts] examined IH]; intros lastpost Hs i a b Ha Hb.
  - destruct i; simpl in *; discriminate.
  - apply StronglySorted_inv in Hs as [Hrest Hall].
    simpl in Hrest, Hall. apply Forall_cons in Hall as [Hts Hall].
    assert (Hnext : StronglySorted Qle
              (snd (skip_this_post self now lastpost ts) :: (snd <$> examined))).
    { destruct (skip_this_post_pair self now lastpost ts) as [->| ->]; simpl.
      - apply StronglySorted_inv in Hrest as [Hrest _]. by constructor.
      - exact Hrest. }
    destruct i as [|i]; simpl in Ha, Hb.
    + injection Ha as <-. injection Hb as <-.
      destruct (skip_this_post_pair self now lastpost ts) as [->| ->]; simpl;
        [apply Qle_refl|exact Hts].
    + eapply IH; [exact Hnext|exact Ha|exact Hb].
Qed.

(** ** The worker loop: backlog *)

Section WorkerFacts.
Context {W : Type} `{World W} {A : Type}.
Variable process_record_m : gmap string value -> A -> W -> result unit * W.
Variable self : RESTThread.
Variable archive : A.

Lemma events_emit (evs : list loop_event) (r : run W) :
  events (emit evs r) = evs ++ events r.
Proof. reflexivity. Qed.



Lemma discarded_app evs1 evs2 :
  discarded (evs1 ++ evs2) = discarded evs1 ++ discarded evs2.
Proof. unfold discarded. apply omap_app. Qed.

Lemma processed_app evs1 evs2 :
  processed (evs1 ++ evs2) = processed evs1 ++ processed evs2.
Proof. unfold processed. apply omap_app. Qed.





End WorkerFacts.




(** ** The worker loop: faults of [process_record] *)

(** An exception of the default [process_record] that comes from the
    enrichment leaves it at once. *)
Lemma process_record_enrichment_fault {W : Type} `{World W} {A : Type}
    (to_US : gmap string value -> result (gmap string value))
    (get_record_m : gmap string value -> A -> result (gmap string value))
    (format_url_m : gmap string value -> result string)
    (post_request_m : string -> W -> result response * W)
    (check_response_m : response -> result unit)
    (self : RESTThread) (record : gmap string value) (archive : A) (w : W) e :
  get_record_m record archive = Raise e ->
  process_record to_US get_record_m format_url_m post_request_m check_response_m
                 self record archive w = (Raise e, w).
Proof. intros Hg. unfold process_record. by rewrite Hg. Qed.

(** C3.  Let a record pass the backlog check and the gate, and let
    [process_record] raise [e] on it.  If [e] is [FailedPost], the failure is
    logged when [log_failure] is set and the loop goes on with the rest of
    the queue; if [e] is [BadLogin], the worker sleeps 3600 seconds and goes
    on with the rest of the queue; any other exception makes [run_loop]
    return, nothing more being taken from the queue.  The [ValueError] that
    [get_record] raises on inconsistent units is such an exception. *)
Theorem run_loop_fault_policy {W : Type} `{World W} {A : Type}
    (process_record_m : gmap string value -> A -> W -> result unit * W)
    (self : RESTThread) (archive : A) (lastpost lastpost' time_ts : Q)
    (_record : gmap string value) (queue : list (option (gmap string value)))
    (w w' : W) (e : exn) :
  Z.of_nat (length queue) <= max_backlog self ->
  (v ← getitem _record "dateTime"; as_number v) = Ok time_ts ->
  skip_this_post self (time_time w) lastpost time_ts = (false, lastpost') ->
  process_record_m _record archive w = (Raise e, w') ->
  let out := run_loop process_record_m self archive lastpost
                      (Some _record :: queue) w in
  (e = FailedPost ->
     out = emit (Processed _record (Raise FailedPost)
                   :: if log_failure self then [Logged LOG_ERR] else [])
                (run_loop process_record_m self archive lastpost' queue w'))
  /\ (e = BadLogin ->
     out = emit [Processed _record (Raise BadLogin); Logged LOG_ERR; Slept 3600]
                (run_loop process_record_m self archive lastpost' queue
                          (time_sleep 3600 w'))
     /\ head (slept (events out)) = Some 3600)
  /\ (e <> FailedPost -> e <> BadLogin ->
     how out = Crashed e
     /\ queue_end out = queue
     /\ world_end out = w'
     /\ processed (events out) = [_record]
     /\ slept (events out) = [])
  /\ (forall to_US get_record_m format_url_m post_request_m check_response_m,
        process_record_m =
          process_record to_US get_record_m format_url_m post_request_m
                         check_response_m self ->
        get_record_m _record archive = Raise ValueError ->
        how out = Crashed ValueError).
Proof.
  intros Hlen Hts Hgate Hproc out.
  assert (Hout : out =
    match e with
    | BadLogin =>
        emit [Processed _record (Raise BadLogin); Logged LOG_ERR; Slept 3600]
             (run_loop process_record_m self archive lastpost' queue
                       (time_sleep 3600 w'))
    | FailedPost =>
        emit (Processed _record (Raise FailedPost)
                :: if log_failure self then [Logged LOG_ERR] else [])
             (run_loop process_record_m self archive lastpost' queue w')
    | _ =>
        {| how := Crashed e; lastpost_end := lastpost'; world_end := w';
           queue_end := queue;
           events := [Processed _record (Raise e); Logged LOG_CRIT; Logged LOG_CRIT] |}
    end).
  { subst out. simpl.
    destruct (Z.leb_spec (Z.of_nat (length queue)) (max_backlog self)); [|lia].
    rewrite Hts, Hgate, Hproc. by destruct e. }
  split; [|split; [|split]].
  - intros ->. exact Hout.
  - intros ->. split; [exact Hout|]. by rewrite Hout.
  - intros Hf Hb. rewrite Hout. by destruct e.
  - intros to_US get_record_m format_url_m post_request_m check_response_m
           Hdef Hraise.
    rewrite Hdef in Hproc.
    rewrite (process_record_enrichment_fault _ _ _ _ _ _ _ _ _ _ Hraise) in Hproc.
    injection Hproc as <- <-. by rewrite Hout.
Qed.

Lemma run_loop_fault_policy_witness :
  let self := thread_with 0 None None in
  let out := run_loop always_bad_login self tt 0 [Some (record_at 10)] (quiet 20) in
  how out = Blocked
  /\ head (slept (events out)) = Some 3600
  /\ (clock (world_end out) == 3620)%Q.
Proof.
  intros self out. subst out.
  pose proof (run_loop_fault_policy always_bad_login self tt 0 10 10
                (record_at 10) [] (quiet 20) (quiet 20) BadLogin
                ltac:(simpl; lia) eq_refl eq_refl eq_refl) as (_ & Hb & _).
  cbv zeta in Hb.
  destruct (Hb eq_refl) as [Hout Hs].
  split; [by rewrite Hout|]. split; [exact Hs|].
  rewrite Hout. reflexivity.
Defined.

(** ** The last accepted time stamp and the loop *)

(** C6, as amended.  [self.lastpost] changes exactly when the gate accepts a
    record, and becomes the time stamp of that record; a skipped record
    leaves it as it is.  When [post_interval] is set and is not negative, its
    successive values never decrease; nor do they when the records come in
    the order of their time stamps.  What [process_record] then does with
    the accepted record, failure included, does not change it again. *)
Theorem lastpost_follows_accepted {W : Type} `{World W} {A : Type}
    (process_record_m : gmap string value -> A -> W -> result unit * W)
    (self : RESTThread) (archive : A) :
  (forall now lastpost time_ts,
      let r := skip_this_post self now lastpost time_ts in
      (fst r = true -> snd r = lastpost) /\ (fst r = false -> snd r = time_ts))
  /\ (forall P examined lastpost i a b,
      post_interval self = Some P -> 0 <= P ->
      (lastpost :: gate_history self lastpost examined) !! i = Some a ->
      (lastpost :: gate_history self lastpost examined) !! S i = Some b ->
      (a <= b)%Q)
  /\ (forall examined lastpost i a b,
      StronglySorted Qle (lastpost :: (snd <$> examined)) ->
      (lastpost :: gate_history self lastpost examined) !! i = Some a ->
      (lastpost :: gate_history self lastpost examined) !! S i = Some b ->
      (a <= b)%Q)
  /\ (forall _record lastpost time_ts w,
      0 <= max_backlog self ->
      (v ← getitem _record "dateTime"; as_number v) = Ok time_ts ->
      lastpost_end (run_loop process_record_m self archive lastpost
                             [Some _record] w)
      = snd (skip_this_post self (time_time w) lastpost time_ts)).
Proof.
  split; [|split; [|split]].
  - intros now lastpost time_ts r. subst r.
    rewrite skip_this_post_lastpost.
    destruct (fst (skip_this_post self now lastpost time_ts)); split; congruence.
  - intros P examined lastpost i a b HP Hpos.
    by apply (gate_history_monotone self P HP Hpos).
  - intros examined lastpost i a b Hs.
    by apply (gate_history_in_order self examined lastpost Hs).
  - intros _record lastpost time_ts w HB Hts. simpl.
    destruct (Z.leb_spec (Z.of_nat 0) (max_backlog self)); [|lia].
    rewrite Hts.
    destruct (skip_this_post self (time_time w) lastpost time_ts)
      as [[|] lastpost']; [reflexivity|].
    destruct (process_record_m _record archive w) as [[[]|e] w']; [reflexivity|].
    destruct e; reflexivity.
Qed.

Lemma lastpost_follows_accepted_witness :
  let self := thread_with 0 None (Some 300) in
  (gate_history self 0 [(1000, 400); (1000, 500); (1000, 900)]%Q
     = [400; 400; 900]%Q
   -> (400 <= 900)%Q)
  /\ lastpost_end (run_loop always_bad_login self tt 0 [Some (record_at 400)]
                            (quiet 1000))
     = snd (skip_this_post self 1000 0 400).
Proof.
  intros self.
  pose proof (lastpost_follows_accepted always_bad_login self tt)
    as (_ & Hm & _ & Hl).
  split.
  - intros _.
    apply (Hm 300 [(1000, 400); (1000, 500); (1000, 900)]%Q 0%Q 2%nat
              400%Q 900%Q eq_refl ltac:(lia) eq_refl eq_refl).
  - apply (Hl (record_at 400) 0%Q 400%Q (quiet 1000) ltac:(simpl; lia) eq_refl).
Defined.

(** C6, as stated, does not hold: without a [post_interval] the gate accepts
    a record that is older than the last accepted one, and [self.lastpost]
    goes back from 100 to 50. *)
Lemma lastpost_monotone_counterexample :
  let self := thread_with 0 None None in
  fst (skip_this_post self 200 0 100) = false
  /\ fst (skip_this_post self 200 100 50) = false
  /\ gate_history self 0 [(200, 100); (200, 50)]%Q = [100; 50]%Q
  /\ ~ (100 <= 50)%Q.
Proof.
  repeat split; try reflexivity.
  intros Hle. vm_compute in Hle. by apply Hle.
Qed.

(** ** The retrying transport *)

Section TransportFacts.
Context {W : Type} `{World W}.
Variable post_request_m : string -> W -> result response * W.
Variable check_response_m : response -> result unit.
Variable self : RESTThread.
Variable request : string.

Lemma attempts_cons_Attempt n tr : attempts (Attempt n :: tr) = S (attempts tr).
Proof. reflexivity. Qed.

Lemma attempts_cons_Sleep s tr : attempts (Sleep s :: tr) = attempts tr.
Proof. reflexivity. Qed.




End TransportFacts.



(** ** Bad logins *)

Lemma Ambient_check_lines_bad_login lines :
  (exists line, line ∈ lines /\
     (String.prefix "ERROR" line = true \/ String.prefix "INVALID" line = true)) ->
  Ambient.check_lines lines = Raise BadLogin.
Proof.
  intros (line & Hin & Hp).
  induction lines as [|l lines IH]; [by apply elem_of_nil in Hin|].
  simpl.
  destruct (String.prefix "ERROR" l || String.prefix "INVALID" l) eqn:E; [done|].
  apply orb_false_iff in E as [E1 E2].
  apply elem_of_cons in Hin as [->|Hin]; [|by apply IH].
  destruct Hp; congruence.
Qed.

(** C5.  When the first attempt gets a response with status 200 on which the
    validator raises [BadLogin], [post_with_retries] makes that one attempt
    and the [BadLogin] leaves it, whatever [max_tries >= 1] is.  The
    validator of the Ambient protocol raises [BadLogin] as soon as a line of
    the response starts with ERROR or INVALID. *)
Theorem bad_login_not_retried {W : Type} `{World W}
    (post_request_m : string -> W -> result response * W)
    (check_response_m : response -> result unit)
    (self : RESTThread) (request : string) (w w' : W) (_response : response) :
  1 <= max_tries self ->
  post_request_m request w = (Ok _response, w') ->
  code _response = 200 ->
  (check_response_m _response = Raise BadLogin ->
     post_with_retries post_request_m check_response_m self request w =
       (Raise BadLogin, w', [Attempt 0])
     /\ attempts [Attempt 0] = 1%nat)
  /\ ((exists line, line ∈ body _response /\
         (String.prefix "ERROR" line = true \/ String.prefix "INVALID" line = true)) ->
      post_with_retries post_request_m Ambient.check_response self request w =
        (Raise BadLogin, w', [Attempt 0])).
Proof.
  intros Hmax Hpost Hcode.
  assert (Hgen : forall check,
    check _response = Raise BadLogin ->
    post_with_retries post_request_m check self request w =
      (Raise BadLogin, w', [Attempt 0])).
  { intros check Hcheck. unfold post_with_retries.
    destruct (Z.to_nat (max_tries self)) as [|n] eqn:En; [lia|].
    simpl. unfold post_once. rewrite Hpost, Hcode, Hcheck. reflexivity. }
  split.
  - intros Hcheck. split; [by apply Hgen|reflexivity].
  - intros Hline. apply Hgen. unfold Ambient.check_response.
    by apply Ambient_check_lines_bad_login.
Qed.

Lemma bad_login_not_retried_witness :
  let self := thread_with 0 None None in
  post_with_retries (post_request self) Ambient.check_response self
                    "http://example.org/?action=updateraw" (rejecting 0) =
    (Raise BadLogin, quiet 0, [Attempt 0]).
Proof.
  intros self.
  apply (bad_login_not_retried (post_request self) Ambient.check_response self
           "http://example.org/?action=updateraw" (rejecting 0) (quiet 0)
           {| code := 200; body := ["INVALIDPASSWORDID|Password"] |}).
  - simpl. lia.
  - reflexivity.
  - reflexivity.
  - exists "INVALIDPASSWORDID|Password". split.
    + apply list_elem_of_here.
    + right. reflexivity.
Defined.

(** ** The record enricher *)

Lemma has_key_insert_ne (d : gmap string value) k k' v :
  k <> k' -> has_key (<[k := v]> d) k' = has_key d k'.
Proof. intros Hne. unfold has_key. by rewrite lookup_insert_ne. Qed.

Lemma in_window_spec closed start stop row :
  in_window closed start stop row = true <->
  (if closed then (start <= inject_Z (row_dateTime row))%Q
   else (start < inject_Z (row_dateTime row))%Q)
  /\ (inject_Z (row_dateTime row) <= stop)%Q.
Proof.
  unfold in_window. rewrite andb_true_iff, Qle_bool_iff.
  destruct closed; [by rewrite Qle_bool_iff|by rewrite Qlt_bool_iff].
Qed.

Lemma window_rows_spec a f row :
  row ∈ window_rows a f <->
  row ∈ rows a
  /\ (if closed f then (start f <= inject_Z (row_dateTime row))%Q
      else (start f < inject_Z (row_dateTime row))%Q)
  /\ (inject_Z (row_dateTime row) <= stop f)%Q.
Proof.
  unfold window_rows, window. rewrite list_elem_of_filter, in_window_spec. tauto.
Qed.

Lemma rain_sum_no_rows a f : window_rows a f = [] -> rain_sum a f = VNone.
Proof. unfold rain_sum. by intros ->. Qed.

(** One block of [get_record] against the table. *)
Lemma rain_block_table a f record d units :
  has_rain a = true ->
  record !! "usUnits" = Some units ->
  rain_block (getSql a) (field f)
             (if closed f then SumRainFrom else SumRainAfter)
             [start f; stop f] record d =
  if has_key d (field f) then Ok d
  else if is_not_None (rain_sum a f) && negb (units_consistent a f units)
       then Raise ValueError
       else Ok (<[field f := rain_sum a f]> d).
Proof.
  intros Hrain Hunits. unfold rain_block.
  destruct (has_key d (field f)); [done|].
  assert (Hsql : getSql a (if closed f then SumRainFrom else SumRainAfter)
                        [start f; stop f]
                 = Ok (Some (sum_rain_row (window_rows a f)))).
  { unfold window_rows. destruct (closed f); simpl; by rewrite Hrain. }
  rewrite Hsql. simpl.
  unfold units_consistent, rain_sum.
  destruct (is_not_None (sql_sum (row_rain <$> window_rows a f))) eqn:Esum; simpl.
  - unfold getitem. rewrite Hunits.
    destruct (py_eq (sql_min (row_usUnits <$> window_rows a f))
                    (sql_max (row_usUnits <$> window_rows a f))); simpl; [|done].
    by destruct (py_eq (sql_max (row_usUnits <$> window_rows a f)) units).
  - destruct (sql_sum (row_rain <$> window_rows a f)); done.
Qed.

(** [get_record] against the table, block by block. *)
Lemma get_record_table startOfDay a record v time_ts units :
  has_rain a = true ->
  record !! "dateTime" = Some v ->
  as_number v = Ok time_ts ->
  record !! "usUnits" = Some units ->
  let step (f : rain_field) (d : gmap string value) : result (gmap string value) :=
    if has_key d (field f) then Ok d
    else if is_not_None (rain_sum a f) && negb (units_consistent a f units)
         then Raise ValueError
         else Ok (<[field f := rain_sum a f]> d) in
  match rain_fields startOfDay time_ts with
  | [f1; f2; f3] =>
      get_record startOfDay (getSql a) record =
      d1 ← step f1 record; d2 ← step f2 d1; step f3 d2
  | _ => False
  end.
Proof.
  intros Hrain Hdt Hnum Hunits step. unfold rain_fields, get_record.
  unfold getitem at 1. rewrite Hdt. simpl. rewrite Hnum. simpl.
  set (f1 := {| field := "hourRain"; closed := false;
                start := (time_ts - 3600)%Q; stop := time_ts |}).
  set (f2 := {| field := "rain24"; closed := false;
                start := (time_ts - 24 * 3600)%Q; stop := time_ts |}).
  set (f3 := {| field := "dayRain"; closed := true;
                start := startOfDay time_ts; stop := time_ts |}).
  pose proof (fun d => rain_block_table a f1 record d units Hrain Hunits) as H1.
  pose proof (fun d => rain_block_table a f2 record d units Hrain Hunits) as H2.
  pose proof (fun d => rain_block_table a f3 record d units Hrain Hunits) as H3.
  simpl in H1, H2, H3.
  subst step. simpl.
  repeat first
    [ rewrite H1 | rewrite H2 | rewrite H3
    | match goal with
      | |- context [if ?b then _ else _] => destruct b; simpl
      end ];
    reflexivity.
Qed.

(** C7, as amended.  Let the archive have the column [rain] and the record
    hold a time stamp and a unit system.  A derived field ([hourRain],
    [rain24], [dayRain]) missing from the record is faulty when the rain sum
    over its window is not NULL and the least and greatest unit systems of
    the rows of the window are not both the unit system of the record.
    [get_record] raises [ValueError] when some field is faulty.  Otherwise it
    returns a record in which each missing derived field holds the rain sum
    over its window, the other keys being those of the input with their
    values.  The windows are those of [rain_fields]: open at the start and
    closed at the end for the last hour and the last 24 hours, closed at both
    ends from the start of the day.  The sum is [None], not zero, when no
    row falls in the window. *)
Theorem get_record_adds_rain startOfDay a record v time_ts units :
  has_rain a = true ->
  record !! "dateTime" = Some v ->
  as_number v = Ok time_ts ->
  record !! "usUnits" = Some units ->
  (forall f row,
      row ∈ window_rows a f <->
      row ∈ rows a
      /\ (if closed f then (start f <= inject_Z (row_dateTime row))%Q
          else (start f < inject_Z (row_dateTime row))%Q)
      /\ (inject_Z (row_dateTime row) <= stop f)%Q)
  /\ (forall f, window_rows a f = [] -> rain_sum a f = VNone)
  /\ (if existsb (unit_fault a record units) (rain_fields startOfDay time_ts)
      then get_record startOfDay (getSql a) record = Raise ValueError
      else
        exists d,
          get_record startOfDay (getSql a) record = Ok d
          /\ (forall f, f ∈ rain_fields startOfDay time_ts ->
                d !! field f =
                if has_key record (field f) then record !! field f
                else Some (rain_sum a f))
          /\ (forall key,
                (forall f, f ∈ rain_fields startOfDay time_ts -> field f <> key) ->
                d !! key = record !! key)).
Proof.
  intros Hrain Hdt Hnum Hunits.
  split; [apply window_rows_spec|]. split; [apply rain_sum_no_rows|].
  pose proof (get_record_table startOfDay a record v time_ts units
                Hrain Hdt Hnum Hunits) as Heq.
  simpl in Heq. rewrite Heq. clear Heq.
  unfold rain_fields, unit_fault. simpl.
  set (f1 := {| field := "hourRain"; closed := false;
                start := (time_ts - 3600)%Q; stop := time_ts |}).
  set (f2 := {| field := "rain24"; closed := false;
                start := (time_ts - 24 * 3600)%Q; stop := time_ts |}).
  set (f3 := {| field := "dayRain"; closed := true;
                start := startOfDay time_ts; stop := time_ts |}).
  destruct (has_key record "hourRain") eqn:K1;
    destruct (has_key record "rain24") eqn:K2;
    destruct (has_key record "dayRain") eqn:K3; simpl;
    rewrite ?K1, ?K2, ?K3; simpl;
    repeat match goal with
      | |- context [is_not_None (rain_sum a ?f) && negb (units_consistent a ?f units)] =>
          destruct (is_not_None (rain_sum a f) && negb (units_consistent a f units));
          simpl;
          rewrite ?has_key_insert_ne by done;
          rewrite ?K1, ?K2, ?K3; simpl
      end;
    try reflexivity;
    (eexists; split; [reflexivity|]; split;
     [ intros f Hf;
       repeat (apply elem_of_cons in Hf as [->|Hf]);
       [..|by apply elem_of_nil in Hf]; simpl;
       rewrite ?K1, ?K2, ?K3; by simplify_map_eq
     | intros key Hkey;
       assert (field f1 <> key) by (apply Hkey; set_solver);
       assert (field f2 <> key) by (apply Hkey; set_solver);
       assert (field f3 <> key) by (apply Hkey; set_solver);
       simpl in *; by simplify_map_eq ]).
Qed.

Lemma get_record_adds_rain_witness :
  let hour := {| field := "hourRain"; closed := false;
                 start := (7200 - 3600)%Q; stop := 7200%Q |} in
  exists d,
    get_record utc_midnight (getSql wet_archive) (record_at 7200) = Ok d
    /\ d !! "hourRain" = Some (rain_sum wet_archive hour)
    /\ row_dateTime <$> window_rows wet_archive hour = [5400; 7200]
    /\ d !! "dateTime" = Some (VInt 7200).
Proof.
  intros hour.
  pose proof (get_record_adds_rain utc_midnight wet_archive (record_at 7200)
                (VInt 7200) 7200%Q (VInt 1) eq_refl eq_refl eq_refl eq_refl)
    as (_ & _ & Hget).
  assert (E : existsb (unit_fault wet_archive (record_at 7200) (VInt 1))
                      (rain_fields utc_midnight 7200) = false)
    by (vm_compute; reflexivity).
  rewrite E in Hget. destruct Hget as (d & Hd & Hfields & Hother).
  exists d. split; [exact Hd|]. split; [|split].
  - apply (Hfields hour). apply list_elem_of_here.
  - vm_compute. reflexivity.
  - rewrite Hother; [reflexivity|].
    intros f Hf.
    repeat (apply elem_of_cons in Hf as [->|Hf]); [done..|].
    by apply elem_of_nil in Hf.
Defined.

(** C7, as stated, does not hold: the only row of the last hour is in metric
    units while the record is in US units, yet no fault is raised, because
    the rain of that row is NULL; [hourRain] is set to [None]. *)
Lemma get_record_units_counterexample :
  let hour := {| field := "hourRain"; closed := false;
                 start := (7200 - 3600)%Q; stop := 7200%Q |} in
  row_usUnits <$> window_rows dry_metric_archive hour = [16]
  /\ record_at 7200 !! "usUnits" = Some (VInt 1)
  /\ units_consistent dry_metric_archive hour (VInt 1) = false
  /\ has_key (record_at 7200) "hourRain" = false
  /\ exists d,
       get_record utc_midnight (getSql dry_metric_archive) (record_at 7200) = Ok d
       /\ d !! "hourRain" = Some VNone.
Proof.
  intros hour. split; [by vm_compute|]. split; [reflexivity|].
  split; [by vm_compute|]. split; [reflexivity|].
  eexists. split; [vm_compute; reflexivity|]. reflexivity.
Qed.

(** ** The Ambient formatter *)

Section AmbientFacts.
Variable debug : bool.
Variable US : Z.
Variable convert : string -> value -> string.
Variable quote_utc : value -> value.






End AmbientFacts.

(** *** Reading the URL back *)

Lemma contains_app c a b :
  contains c (a +:+ b) = contains c a || contains c b.
Proof.
  induction a as [|x a IH]; simpl; [done|].
  rewrite IH. by rewrite orb_assoc.
Qed.

Lemma from_app c a b :
  contains c a = false -> from c (a +:+ String c b) = String c b.
Proof.
  induction a as [|x a IH]; simpl.
  - intros _. by rewrite Ascii.eqb_refl.
  - intros Hc. apply orb_false_iff in Hc as [Hx Ha].
    rewrite Hx. by apply IH.
Qed.

Lemma split_on_single sep a :
  contains sep a = false -> split_on sep a = [a].
Proof.
  induction a as [|x a IH]; simpl; [done|].
  intros Hc. apply orb_false_iff in Hc as [Hx Ha].
  rewrite Hx, IH by done. done.
Qed.

Lemma split_on_app sep a b :
  contains sep a = false ->
  split_on sep (a +:+ String sep b) = a :: split_on sep b.
Proof.
  induction a as [|x a IH]; simpl.
  - intros _. by rewrite Ascii.eqb_refl.
  - intros Hc. apply orb_false_iff in Hc as [Hx Ha].
    rewrite Hx, IH by done. done.
Qed.

Lemma split_on_concat sep pieces :
  pieces <> [] ->
  Forall (fun piece => contains sep piece = false) pieces ->
  split_on sep (String.concat (String sep EmptyString) pieces) = pieces.
Proof.
  intros Hne Hall. induction Hall as [|piece pieces Hp Hall IH]; [done|].
  destruct pieces as [|piece' pieces].
  - simpl. by apply split_on_single.
  - change (String.concat (String sep EmptyString) (piece :: piece' :: pieces))
      with (piece +:+ String sep (String.concat (String sep EmptyString)
                                               (piece' :: pieces))).
    rewrite split_on_app by done. by rewrite IH.
Qed.

Lemma query_string_url server query :
  contains "?"%char server = false ->
  Ambient.query_string (server +:+ "?" +:+ query) = query.
Proof.
  intros Hs. unfold Ambient.query_string.
  change (server +:+ "?" +:+ query) with (server +:+ String "?"%char query).
  by rewrite from_app.
Qed.




(** ** CWOP: the fail-over over the servers *)

Section CWOPFacts.
Context {W : Type} `{World W}.
Variable int : string -> result Z.
Variables login tnc_packet : string.

Lemma _get_connect_converted server port w :
  converted (fst (CWOP._get_connect server port w)).
Proof.
  unfold CWOP._get_connect.
  destruct (sock_connect server port w) as [[[]|e] w']; simpl; [done|].
  destruct (is_IOError e) eqn:E; simpl; auto.
Qed.

Lemma _send_converted msg w : converted (fst (CWOP._send msg w)).
Proof.
  unfold CWOP._send.
  destruct (sock_send msg w) as [[[]|e] w']; simpl.
  - destruct (sock_recv w') as [[[]|e] w'']; simpl; [done|].
    destruct (is_IOError e) eqn:E; simpl; auto.
  - destruct (is_IOError e) eqn:E; simpl; auto.
Qed.

Lemma exchange_converted server port w :
  converted (fst (CWOP.exchange login tnc_packet server port w)).
Proof.
  unfold CWOP.exchange.
  pose proof (_get_connect_converted server port w) as Hc.
  destruct (CWOP._get_connect server port w) as [[[]|e] w1]; [|exact Hc].
  pose proof (_send_converted login w1) as Hl.
  destruct (CWOP._send login w1) as [[[]|e] w2]; [|exact Hl].
  pose proof (_send_converted tnc_packet w2) as Hp.
  by destruct (CWOP._send tnc_packet w2) as [r w3].
Qed.

Lemma exchange_not_FailedPost server port w :
  fst (CWOP.exchange login tnc_packet server port w) <> Raise FailedPost.
Proof.
  intros Heq. pose proof (exchange_converted server port w) as Hc.
  rewrite Heq in Hc. simpl in Hc. destruct Hc as [|[|]]; discriminate.
Qed.

(** The loop over the attempts on one server is the run of its part of
    the schedule. *)
Lemma try_server_run server port counts w todo :
  CWOP.run_schedule login tnc_packet
    (((fun _count => (server, port, _count)) <$> counts) ++ todo) w =
  match CWOP.try_server login tnc_packet server port counts w with
  | (Some r, w', tr) => (r, w', tr)
  | (None, w', tr) =>
      let '(r, w'', tr') := CWOP.run_schedule login tnc_packet todo w' in
      (r, w'', tr ++ tr')
  end.
Proof.
  revert w. induction counts as [|_count counts IH]; intros w.
  - simpl. by destruct (CWOP.run_schedule login tnc_packet todo w) as [[r w'] tr].
  - simpl.
    destruct (CWOP.exchange login tnc_packet server port w) as [[[]|e] w'];
      [done|].
    destruct e; try done.
    + rewrite IH.
      destruct (CWOP.try_server login tnc_packet server port counts w')
        as [[[r|] w''] tr]; [done|].
      by destruct (CWOP.run_schedule login tnc_packet todo w'') as [[r w3] tr'].
    + rewrite IH.
      destruct (CWOP.try_server login tnc_packet server port counts w')
        as [[[r|] w''] tr]; [done|].
      by destruct (CWOP.run_schedule login tnc_packet todo w'') as [[r w3] tr'].
Qed.

(** [send_packet] is the run of the schedule of its servers. *)
Lemma try_servers_run max_tries servers w :
  Forall (fun s => exists a, CWOP.parse_address int s = Ok a) servers ->
  CWOP.try_servers int max_tries login tnc_packet servers w =
  CWOP.run_schedule login tnc_packet (CWOP.schedule int max_tries servers) w.
Proof.
  intros Hok. revert w.
  induction Hok as [|s servers [[server port] Hs] _ IH]; intros w; [done|].
  simpl. rewrite Hs. rewrite try_server_run.
  destruct (CWOP.try_server login tnc_packet server port
              (seq 0 (Z.to_nat max_tries)) w) as [[[r|] w'] tr]; [done|].
  by rewrite IH.
Qed.


(** The attempts made are the first ones of the schedule, in its order. *)
Lemma run_schedule_prefix todo w :
  exists rest, todo = snd (CWOP.run_schedule login tnc_packet todo w) ++ rest.
Proof.
  revert w. induction todo as [|a todo IH]; intros w; [by exists []|].
  simpl.
  destruct (CWOP.exchange login tnc_packet a.1.1 a.1.2 w) as [[[]|e] w'].
  { by exists todo. }
  destruct (IH w') as [rest Hrest].
  destruct (CWOP.run_schedule login tnc_packet todo w') as [[r w''] tr].
  simpl in Hrest.
  destruct e; try (by exists todo); exists rest; simpl; by f_equal.
Qed.


End CWOPFacts.



(** ** AWEKAS: the rain rate *)

Section EnricherFacts.
Variable startOfDay : Q -> Q.
Variable getSql_m : sql -> list Q -> result (option (list value)).

(** A block of [get_record] writes its own key only. *)
Lemma rain_block_other key statement args record d d' k :
  rain_block getSql_m key statement args record d = Ok d' ->
  k <> key -> d' !! k = d !! k.
Proof.
  intros Hb Hne. unfold rain_block in Hb.
  unfold mbind, result_bind in Hb.
  repeat (case_match; simplify_eq/=); by rewrite ?lookup_insert_ne.
Qed.

Lemma or_pass_Ok d m k r :
  or_pass d m k = Ok r ->
  (exists d', m = Ok d' /\ k d' = Ok r) \/ (m = Raise OperationalError /\ r = d).
Proof.
  unfold or_pass. destruct m as [d'|e]; [by eauto|].
  destruct e; try done. intros [= ->]. by right.
Qed.

(** [get_record] writes the three derived fields only. *)
Lemma get_record_other record r k :
  get_record startOfDay getSql_m record = Ok r ->
  k <> "hourRain" -> k <> "rain24" -> k <> "dayRain" ->
  r !! k = record !! k.
Proof.
  intros Hg H1 H2 H3. unfold get_record in Hg.
  destruct (_ ← getitem record "dateTime"; _) as [time_ts|e]; [|done].
  simpl in Hg.
  apply or_pass_Ok in Hg as [(d1 & E1 & Hg)|[_ ->]]; [|done].
  apply rain_block_other with (k := k) in E1; [|done].
  apply or_pass_Ok in Hg as [(d2 & E2 & Hg)|[_ ->]]; [|done].
  apply rain_block_other with (k := k) in E2; [|done].
  apply or_pass_Ok in Hg as [(d3 & E3 & Hg)|[_ ->]]; [|congruence].
  apply rain_block_other with (k := k) in E3; [|done].
  injection Hg as <-. congruence.
Qed.
End EnricherFacts.

(** The statement for the rain rate finds no row. *)
Lemma getSql_no_row a ts :
  has_rainRate a = true ->
  (forall row, row ∈ rows a -> ~ (inject_Z (row_dateTime row) == ts)%Q) ->
  getSql a RainRateAt [ts] = Ok None.
Proof.
  intros Hcol Hnone. simpl. rewrite Hcol.
  destruct (filter _ (rows a)) as [|row l] eqn:E; [done|].
  assert (Hin : row ∈ filter
            (fun row => Qeq_bool (inject_Z (row_dateTime row)) ts = true) (rows a))
    by (rewrite E; by left).
  apply list_elem_of_filter in Hin as [Heq Hin].
  apply Qeq_bool_iff in Heq. by destruct (Hnone row Hin).
Qed.

(** The statement for the rain rate on a table without the column. *)
Lemma getSql_no_column a ts :
  has_rainRate a = false ->
  getSql a RainRateAt [ts] = Raise OperationalError.
Proof. intros Hcol. simpl. by rewrite Hcol. Qed.

(** C10.  Let the enricher of the base class return a record, and let the
    record pass the backlog check and the gate.  When the statement for the
    rain rate returns no result, subscripting it raises [TypeError], which
    leaves [AWEKASThread.get_record] and [process_record], and [run_loop]
    returns: the worker is over and the rest of the queue is left.  When the
    statement raises [weedb.OperationalError], the record of the base class
    is returned as it is.  A table that has the column [rainRate] but no row
    at the time stamp of the record gives no result; a table without the
    column raises [weedb.OperationalError]. *)
Theorem AWEKAS_missing_row_stops_worker {W : Type} `{World W} {A : Type}
    (startOfDay : Q -> Q)
    (getSql_of : A -> sql -> list Q -> result (option (list value)))
    (get_url : gmap string value -> result string)
    (self : AWEKAS.AWEKASThread) (archive : A)
    (record r : gmap string value) (v : value) (time_ts lastpost lastpost' : Q)
    (queue : list (option (gmap string value))) (w : W) :
  record !! "dateTime" = Some v ->
  as_number v = Ok time_ts ->
  get_record startOfDay (getSql_of archive) record = Ok r ->
  Z.of_nat (length queue) <= max_backlog (AWEKAS.base self) ->
  skip_this_post (AWEKAS.base self) (time_time w) lastpost time_ts = (false, lastpost') ->
  let get_record_m := fun record (archive : A) =>
    AWEKAS.get_record startOfDay (getSql_of archive) record in
  let out := run_loop (AWEKAS.process_record get_record_m get_url self)
                      (AWEKAS.base self) archive lastpost (Some record :: queue) w in
  (getSql_of archive RainRateAt [time_ts] = Ok None ->
   AWEKAS.get_record startOfDay (getSql_of archive) record = Raise TypeError
   /\ how out = Crashed TypeError
   /\ queue_end out = queue
   /\ processed (events out) = [record])
  /\ (getSql_of archive RainRateAt [time_ts] = Raise OperationalError ->
      AWEKAS.get_record startOfDay (getSql_of archive) record = Ok r)
  /\ (forall a : Archive,
        has_rainRate a = true ->
        (forall row, row ∈ rows a -> ~ (inject_Z (row_dateTime row) == time_ts)%Q) ->
        getSql a RainRateAt [time_ts] = Ok None)
  /\ (forall a : Archive,
        has_rainRate a = false ->
        getSql a RainRateAt [time_ts] = Raise OperationalError).
Proof.
  intros Hdt Hnum Hbase Hlen Hgate get_record_m out.
  assert (Hts : (x ← getitem r "dateTime"; as_number x) = Ok time_ts).
  { unfold getitem.
    rewrite (get_record_other startOfDay (getSql_of archive) record r "dateTime" Hbase)
      by done.
    rewrite Hdt. exact Hnum. }
  cbn -[getitem as_number] in Hts.
  split; [|split; [|split]].
  - intros Hsql.
    assert (Hget : AWEKAS.get_record startOfDay (getSql_of archive) record
                   = Raise TypeError).
    { unfold AWEKAS.get_record. rewrite Hbase.
      cbn -[getitem as_number]. rewrite Hts. cbn. rewrite Hsql. reflexivity. }
    split; [exact Hget|].
    subst out. simpl.
    destruct (Z.leb_spec (Z.of_nat (length queue)) (max_backlog (AWEKAS.base self)));
      [|lia].
    unfold getitem. rewrite Hdt. simpl. rewrite Hnum, Hgate.
    unfold AWEKAS.process_record. subst get_record_m.
    cbn -[AWEKAS.get_record]. rewrite Hget. simpl. done.
  - intros Hsql. unfold AWEKAS.get_record. rewrite Hbase.
    cbn -[getitem as_number]. rewrite Hts. cbn. by rewrite Hsql.
  - intros a. apply getSql_no_row.
  - intros a. apply getSql_no_column.
Qed.

Lemma AWEKAS_missing_row_stops_worker_witness :
  let get_record_m := fun record (archive : Archive) =>
    AWEKAS.get_record utc_midnight (getSql archive) record in
  let out := run_loop (AWEKAS.process_record get_record_m some_url awekas)
                      (AWEKAS.base awekas) wet_archive 0
                      [Some (record_at 9000); Some (record_at 9300)] (quiet 9000) in
  how out = Crashed TypeError
  /\ queue_end out = [Some (record_at 9300)].
Proof.
  intros get_record_m out.
  pose proof (AWEKAS_missing_row_stops_worker utc_midnight getSql some_url awekas
                wet_archive (record_at 9000) (enriched wet_archive (record_at 9000))
                (VInt 9000) 9000 0 9000 [Some (record_at 9300)] (quiet 9000)
                eq_refl eq_refl) as Hthm.
  destruct Hthm as (Hrow & _ & _ & _).
  - vm_compute. reflexivity.
  - simpl. lia.
  - reflexivity.
  - destruct Hrow as (_ & Hhow & Hq & _); [reflexivity|].
    split; [exact Hhow|exact Hq].
Defined.

(* ================================================================== *)
(** * Further properties of the worker loop *)
(* ================================================================== *)

Section WorkerRuns.
Context {W : Type} `{World W} {A : Type}.
Variable process_record_m : gmap string value -> A -> W -> result unit * W.
Variable self : RESTThread.
Variable archive : A.


Lemma skipped_app evs1 evs2 :
  skipped (evs1 ++ evs2) = skipped evs1 ++ skipped evs2.
Proof. unfold skipped. apply omap_app. Qed.


(** One turn of the loop on a record, case by case. *)
Lemma run_loop_cons lastpost _record queue w :
  let out := run_loop process_record_m self archive lastpost
                      (Some _record :: queue) w in
  (max_backlog self < Z.of_nat (length queue)
   /\ out = emit [Discarded _record]
                 (run_loop process_record_m self archive lastpost queue w))
  \/ (Z.of_nat (length queue) <= max_backlog self
      /\ ((exists e, stamp_of _record = Raise e
                     /\ how out = Uncaught e /\ events out = []
                     /\ queue_end out = queue)
          \/ (exists time_ts, stamp_of _record = Ok time_ts
              /\ ((skip_this_post self (time_time w) lastpost time_ts = (true, lastpost)
                   /\ out = emit [Skipped _record]
                              (run_loop process_record_m self archive lastpost queue w))
                  \/ (skip_this_post self (time_time w) lastpost time_ts = (false, time_ts)
                      /\ exists outcome w',
                           process_record_m _record archive w = (outcome, w')
                           /\ ((goes_on outcome = true
                                /\ out = emit (Processed _record outcome
                                                 :: after_outcome self outcome)
                                            (run_loop process_record_m self archive
                                               time_ts queue
                                               (world_after_outcome outcome w')))
                               \/ (goes_on outcome = false
                                   /\ how out = Crashed
                                        match outcome with
                                        | Raise e => e
                                        | Ok _ => OtherException
                                        end
                                   /\ queue_end out = queue
                                   /\ events out = Processed _record outcome
                                                     :: after_outcome self outcome))))))).
Proof.
  intros out. subst out. unfold stamp_of. simpl.
  destruct (Z.leb_spec (Z.of_nat (length queue)) (max_backlog self));
    [right; split; [done|]|left; by split].
  destruct (_ ← getitem _record "dateTime"; _) as [time_ts|e];
    [right; exists time_ts; split; [done|]|left; by exists e].
  destruct (skip_this_post_pair self (time_time w) lastpost time_ts) as [-> | ->];
    [left; by split|right; split; [done|]].
  destruct (process_record_m _record archive w) as [outcome w'] eqn:Ep.
  exists outcome, w'. split; [done|].
  destruct outcome as [[]|e]; [left; by split|].
  destruct e; try (right; by repeat split); left; by split.
Qed.

Lemma examined_after_outcome outcome : examined (after_outcome self outcome) = [].
Proof.
  destruct outcome as [[]|e]; simpl; [by destruct (log_success self)|].
  destruct e; try done. by destruct (log_failure self).
Qed.

Lemma processed_after_outcome outcome : processed (after_outcome self outcome) = [].
Proof.
  destruct outcome as [[]|e]; simpl; [by destruct (log_success self)|].
  destruct e; try done. by destruct (log_failure self).
Qed.







(** X: no threshold.  With neither [stale] nor [post_interval] set and no
    more than [max_backlog + 1] items queued, every record before the stop
    marker is handed to [process_record], in the order of the queue, as long
    as the records have a time stamp and [process_record] raises nothing but
    [BadLogin] and [FailedPost]. *)
Theorem run_loop_posts_every_record (queue : list (option (gmap string value))) :
  stale self = None ->
  post_interval self = None ->
  Z.of_nat (length queue) <= max_backlog self + 1 ->
  Forall has_stamp (before_stop queue) ->
  (forall _record w, goes_on (fst (process_record_m _record archive w)) = true) ->
  forall lastpost w,
    let out := run_loop process_record_m self archive lastpost queue w in
    processed (events out) = before_stop queue
    /\ discarded (events out) = []
    /\ skipped (events out) = [].
Proof.
  intros Hstale Hinterval Hlen Hst Hproc.
  induction queue as [|[_record|] queue IH]; intros lastpost w; [done| |done].
  simpl in Hlen. apply Forall_cons in Hst as [[ts Hts] Hst].
  specialize (IH ltac:(lia) Hst).
  pose proof (run_loop_cons lastpost _record queue w) as Hstep.
  cbv zeta in *.
  destruct Hstep as [[Hlt _]|[_ [(e & Hst' & _)
                               |(ts' & Hts' & [[Hskip _]|(_ & o & w' & Ho & [[_ ->]|(Hgo & _)])])]]].
  - lia.
  - congruence.
  - unfold skip_this_post in Hskip. rewrite Hstale, Hinterval in Hskip.
    discriminate.
  - destruct (IH ts' (world_after_outcome o w')) as (Hp & Hd & Hs).
    rewrite events_emit. simpl.
    rewrite processed_app, processed_after_outcome, Hp.
    split; [done|].
    pose proof (examined_after_outcome o) as Hex.
    assert (Hd' : discarded (after_outcome self o) = []).
    { destruct o as [[]|e]; simpl; [by destruct (log_success self)|].
      destruct e; try done. by destruct (log_failure self). }
    assert (Hs' : skipped (after_outcome self o) = []).
    { destruct o as [[]|e]; simpl; [by destruct (log_success self)|].
      destruct e; try done. by destruct (log_failure self). }
    by rewrite discarded_app, skipped_app, Hd, Hs, Hd', Hs'.
  - specialize (Hproc _record w). rewrite Ho in Hproc. simpl in Hproc.
    congruence.
Qed.

(** X: the rate limit.  With [post_interval] set to [P], a record handed to
    [process_record] has a time stamp that is at least [P] seconds after
    that of the record handed before it, and the first one at least [P]
    seconds after the initial [lastpost]. *)
Theorem run_loop_spaces_posts (P : Z) (queue : list (option (gmap string value))) :
  post_interval self = Some P ->
  forall lastpost w i a b,
    let out := run_loop process_record_m self archive lastpost queue w in
    (lastpost :: (stamp <$> processed (events out))) !! i = Some a ->
    (lastpost :: (stamp <$> processed (events out))) !! S i = Some b ->
    (inject_Z P <= b - a)%Q.
Proof.
  intros HP.
  induction queue as [|[_record|] queue IH]; intros lastpost w i a b;
    [by destruct i| |by destruct i].
  pose proof (run_loop_cons lastpost _record queue w) as Hstep.
  cbv zeta in *.
  destruct Hstep as [[_ ->]|[_ [(e & _ & _ & -> & _)
                               |(ts & Hts & [[_ ->]|(Hacc & o & w' & Ho & Hrest)])]]].
  - rewrite events_emit. simpl. apply IH.
  - by destruct i.
  - rewrite events_emit. simpl. apply IH.
  - assert (Hgap : (inject_Z P <= ts - lastpost)%Q).
    { destruct (Qlt_le_dec (ts - lastpost) (inject_Z P)) as [Hlt|Hle]; [|done].
      assert (fst (skip_this_post self (time_time w) lastpost ts) = true).
      { apply skip_this_post_true. right. by exists P. }
      rewrite Hacc in *. discriminate. }
    assert (Hstamp : stamp _record = ts) by (unfold stamp; by rewrite Hts).
    destruct Hrest as [[_ ->]|(_ & _ & _ & Hev)].
    + rewrite events_emit. simpl.
      rewrite processed_app, processed_after_outcome. simpl. rewrite Hstamp.
      destruct i as [|i]; simpl.
      * intros [= <-] [= <-]. exact Hgap.
      * apply IH.
    + rewrite Hev. simpl. rewrite processed_after_outcome. simpl. rewrite Hstamp.
      destruct i as [|[|i]]; simpl; try done.
      intros [= <-] [= <-]. exact Hgap.
Qed.



End WorkerRuns.


Lemma run_loop_posts_every_record_witness :
  let queue := [Some (record_at 1); Some (record_at 2); None] in
  let out := run_loop always_published (thread_with 10 None None) tt 0 queue
                      (quiet 10) in
  processed (events out) = [record_at 1; record_at 2].
Proof.
  intros queue out.
  pose proof (run_loop_posts_every_record always_published
                (thread_with 10 None None) tt queue eq_refl eq_refl) as Hthm.
  apply Hthm.
  - simpl. lia.
  - repeat constructor; [by exists 1%Q|by exists 2%Q].
  - intros _record w. reflexivity.
Defined.

Lemma run_loop_spaces_posts_witness :
  let queue := [Some (record_at 1000); Some (record_at 1100);
                Some (record_at 1400)] in
  let out := run_loop always_published (thread_with 10 None (Some 300)) tt 0
                      queue (quiet 2000) in
  stamp <$> processed (events out) = [1000; 1400]%Q
  /\ (inject_Z 300 <= 1400 - 1000)%Q.
Proof.
  intros queue out. split; [reflexivity|].
  apply (run_loop_spaces_posts always_published (thread_with 10 None (Some 300)) tt
           300 queue eq_refl 0%Q (quiet 2000) 1%nat 1000%Q 1400%Q);
    reflexivity.
Defined.

(* ================================================================== *)
(** * Further properties of the retrying transport *)
(* ================================================================== *)

Section TransportBounds.
Context {W : Type} `{World W}.
Variable post_request_m : string -> W -> result response * W.
Variable check_response_m : response -> result unit.
Variable self : RESTThread.
Variable request : string.

Lemma sleeps_cons_Attempt n tr : sleeps (Attempt n :: tr) = sleeps tr.
Proof. reflexivity. Qed.

Lemma sleeps_cons_Sleep s tr : sleeps (Sleep s :: tr) = S (sleeps tr).
Proof. reflexivity. Qed.

(** The shape of the trace of the loop over any list of counts. *)
Lemma retry_loop_shape counts :
  forall w,
    let '(r, _, tr) :=
      retry_loop post_request_m check_response_m self request counts w in
    (attempts tr <= length counts)%nat
    /\ Forall (fun ev => is_attempt ev = false -> ev = Sleep (retry_wait self)) tr
    /\ (r = Ok tt -> S (sleeps tr) = attempts tr)
    /\ (sleeps tr = attempts tr \/ S (sleeps tr) = attempts tr)
    /\ (sleeps tr = attempts tr -> r = Raise FailedPost /\ attempts tr = length counts).
Proof.
  induction counts as [|_count counts IH]; intros w.
  - simpl. split; [done|]. split; [done|]. split; [done|]. split; [by left|done].
  - simpl.
    assert (Hnext : forall w',
      let '(r, _, tr) :=
        (let '(r, w'', tr) :=
           retry_loop post_request_m check_response_m self request counts
                      (time_sleep (retry_wait self) w') in
         (r, w'', Attempt _count :: Sleep (retry_wait self) :: tr)) in
      (attempts tr <= S (length counts))%nat
      /\ Forall (fun ev => is_attempt ev = false -> ev = Sleep (retry_wait self)) tr
      /\ (r = Ok tt -> S (sleeps tr) = attempts tr)
      /\ (sleeps tr = attempts tr \/ S (sleeps tr) = attempts tr)
      /\ (sleeps tr = attempts tr -> r = Raise FailedPost
                                     /\ attempts tr = S (length counts))).
    { intros w'. specialize (IH (time_sleep (retry_wait self) w')).
      destruct (retry_loop post_request_m check_response_m self request counts
                  (time_sleep (retry_wait self) w')) as [[r w''] tr].
      destruct IH as (Hn & Hall & Hok & Halt & Hex).
      rewrite attempts_cons_Attempt, attempts_cons_Sleep,
        sleeps_cons_Attempt, sleeps_cons_Sleep.
      split; [lia|]. split; [by repeat constructor|].
      split; [intros Hr; f_equal; by apply Hok|].
      split; [destruct Halt; [left|right]; lia|].
      intros Heq. destruct (Hex ltac:(lia)) as [-> Hlen]. split; [done|lia]. }
    destruct (post_once post_request_m check_response_m request w)
      as [[[|]|e] w'].
    + unfold attempts, sleeps. simpl. split; [lia|]. split; [by repeat constructor|].
      split; [done|]. split; [by right|]. intros [=].
    + apply Hnext.
    + destruct (is_transport_fault e); [apply Hnext|].
      unfold attempts, sleeps. simpl. split; [lia|]. split; [by repeat constructor|].
      split; [done|]. split; [by right|]. intros [=].
Qed.

(** X: bounds of the retry loop.  Whatever the network does,
    [post_with_retries] makes no more than [max_tries] attempts, and none
    when [max_tries] is not positive: it then raises [FailedPost] at once.
    It sleeps [retry_wait] after each attempt it retries and never otherwise,
    so that a return comes after one sleep less than attempts, and the
    [FailedPost] of exhaustion after a sleep that follows the last attempt. *)
Theorem post_with_retries_bounded (w : W) :
  let '(r, w', tr) :=
    post_with_retries post_request_m check_response_m self request w in
  Z.of_nat (attempts tr) <= Z.max 0 (max_tries self)
  /\ Forall (fun ev => is_attempt ev = false -> ev = Sleep (retry_wait self)) tr
  /\ (r = Ok tt -> S (sleeps tr) = attempts tr)
  /\ (sleeps tr = attempts tr \/ S (sleeps tr) = attempts tr)
  /\ (sleeps tr = attempts tr ->
      r = Raise FailedPost /\ Z.of_nat (attempts tr) = Z.max 0 (max_tries self))
  /\ (max_tries self <= 0 -> r = Raise FailedPost /\ w' = w /\ tr = []).
Proof.
  unfold post_with_retries.
  pose proof (retry_loop_shape (seq 0 (Z.to_nat (max_tries self))) w) as Hshape.
  destruct (retry_loop post_request_m check_response_m self request
              (seq 0 (Z.to_nat (max_tries self))) w) as [[r w'] tr] eqn:E.
  rewrite length_seq in Hshape. destruct Hshape as (Hn & Hall & Hok & Halt & Hex).
  split; [lia|]. split; [exact Hall|]. split; [exact Hok|]. split; [exact Halt|].
  split.
  - intros Heq. destruct (Hex Heq) as [-> Hlen]. split; [done|lia].
  - intros Hmax. replace (Z.to_nat (max_tries self)) with 0%nat in E by lia.
    simpl in E. by injection E as <- <- <-.
Qed.
End TransportBounds.

(* ================================================================== *)
(** * Further properties of the record enricher *)
(* ================================================================== *)

Section EnricherFrame.
Variable startOfDay : Q -> Q.
Variable getSql_m : sql -> list Q -> result (option (list value)).

(** A block of [get_record] keeps every field the dictionary has, and
    ends with its own key in the dictionary. *)
Lemma rain_block_keeps key statement args record d d' :
  rain_block getSql_m key statement args record d = Ok d' ->
  d ⊆ d' /\ has_key d' key = true
  /\ forall k, is_Some (d' !! k) -> is_Some (d !! k) \/ k = key.
Proof.
  intros Hb. unfold rain_block in Hb.
  destruct (has_key d key) eqn:Hk.
  { injection Hb as <-. split; [done|]. split; [done|]. by left. }
  assert (Hnone : d !! key = None).
  { unfold has_key in Hk. by destruct (d !! key). }
  assert (Hins : forall v, d ⊆ <[key := v]> d /\ has_key (<[key := v]> d) key = true
            /\ forall k, is_Some (<[key := v]> d !! k) -> is_Some (d !! k) \/ k = key).
  { intros v. split; [by apply insert_subseteq|].
    split; [unfold has_key; by rewrite lookup_insert_eq|].
    intros k Hsome. destruct (decide (k = key)) as [->|Hne]; [by right|].
    left. by rewrite lookup_insert_ne in Hsome. }
  unfold mbind, result_bind in Hb.
  repeat (case_match; simplify_eq/=); apply Hins.
Qed.

(** With the three derived fields in the record, no block reads the
    archive. *)
Lemma get_record_present record time_ts :
  stamp_of record = Ok time_ts ->
  has_key record "hourRain" = true ->
  has_key record "rain24" = true ->
  has_key record "dayRain" = true ->
  get_record startOfDay getSql_m record = Ok record.
Proof.
  intros Hts H1 H2 H3. unfold get_record. unfold stamp_of in Hts.
  rewrite Hts. simpl. unfold rain_block. rewrite H1. simpl.
  rewrite H2. simpl. by rewrite H3.
Qed.

(** What [get_record] returns: the record with some of the derived fields
    added, all of them unless a statement raised [OperationalError]. *)
Lemma get_record_result record r :
  get_record startOfDay getSql_m record = Ok r ->
  record ⊆ r
  /\ (forall k, is_Some (r !! k) ->
        is_Some (record !! k) \/ k ∈ ["hourRain"; "rain24"; "dayRain"])
  /\ ((has_key r "hourRain" = true /\ has_key r "rain24" = true
       /\ has_key r "dayRain" = true)
      \/ exists statement args,
           (statement = SumRainAfter \/ statement = SumRainFrom)
           /\ length args = 2%nat
           /\ getSql_m statement args = Raise OperationalError).
Proof.
  intros Hg. unfold get_record in Hg.
  destruct (_ ← getitem record "dateTime"; _) as [time_ts|e]; [|done].
  simpl in Hg.
  assert (Hraise : forall key statement args d,
    (statement = SumRainAfter \/ statement = SumRainFrom) -> length args = 2%nat ->
    rain_block getSql_m key statement args record d = Raise OperationalError ->
    exists statement args,
      (statement = SumRainAfter \/ statement = SumRainFrom)
      /\ length args = 2%nat
      /\ getSql_m statement args = Raise OperationalError).
  { intros key statement args d Hst Hlen Hb. exists statement, args.
    split; [done|]. split; [done|]. unfold rain_block in Hb.
    unfold mbind, result_bind, subscript, getitem in Hb.
    repeat (case_match; simplify_eq/=); done. }
  apply or_pass_Ok in Hg as [(d1 & E1 & Hg)|[E1 ->]].
  2:{ split; [done|]. split; [by left|]. right.
      eapply Hraise; [| |exact E1]; [by left|done]. }
  apply rain_block_keeps in E1 as (S1 & K1 & D1).
  apply or_pass_Ok in Hg as [(d2 & E2 & Hg)|[E2 ->]].
  2:{ split; [done|]. split.
      - intros k Hk. destruct (D1 k Hk) as [?| ->]; [by left|right; set_solver].
      - right. eapply Hraise; [| |exact E2]; [by left|done]. }
  apply rain_block_keeps in E2 as (S2 & K2 & D2).
  apply or_pass_Ok in Hg as [(d3 & E3 & Hg)|[E3 ->]].
  2:{ split; [by etrans|]. split.
      - intros k Hk. destruct (D2 k Hk) as [Hk'| ->]; [|right; set_solver].
        destruct (D1 k Hk') as [?| ->]; [by left|right; set_solver].
      - right. eapply Hraise; [| |exact E3]; [by right|done]. }
  apply rain_block_keeps in E3 as (S3 & K3 & D3).
  injection Hg as <-.
  assert (Hkept : forall d d' : gmap string value, forall k,
            d ⊆ d' -> has_key d k = true -> has_key d' k = true).
  { intros d d' k Hsub Hk. unfold has_key in *.
    destruct (d !! k) as [v|] eqn:E; [|done].
    by rewrite (lookup_weaken _ _ _ _ E Hsub). }
  split; [by do 2 (etrans; [|done])|]. split.
  - intros k Hk. destruct (D3 k Hk) as [Hk3| ->]; [|right; set_solver].
    destruct (D2 k Hk3) as [Hk2| ->]; [|right; set_solver].
    destruct (D1 k Hk2) as [?| ->]; [by left|right; set_solver].
  - left. split; [|split]; [|by eapply Hkept|done].
    eapply Hkept; [|exact K1]. by etrans.
Qed.

(** X: no field is lost or overwritten.  Whatever the archive answers,
    a record that [get_record] returns holds every field of the record it
    was given, with the value it had there, the derived fields included
    when the record had them; the fields it adds are among [hourRain],
    [rain24] and [dayRain]. *)
Theorem get_record_keeps_fields record r :
  get_record startOfDay getSql_m record = Ok r ->
  record ⊆ r
  /\ forall k, is_Some (r !! k) ->
       is_Some (record !! k) \/ k ∈ ["hourRain"; "rain24"; "dayRain"].
Proof.
  intros Hg. unfold get_record in Hg.
  destruct (_ ← getitem record "dateTime"; _) as [time_ts|e]; [|done].
  simpl in Hg.
  apply or_pass_Ok in Hg as [(d1 & E1 & Hg)|[_ ->]]; [|split; [done|by left]].
  apply rain_block_keeps in E1 as (S1 & _ & D1).
  assert (H1 : forall k, is_Some (d1 !! k) ->
            is_Some (record !! k) \/ k ∈ ["hourRain"; "rain24"; "dayRain"]).
  { intros k Hk. destruct (D1 k Hk) as [?| ->]; [by left|right; set_solver]. }
  apply or_pass_Ok in Hg as [(d2 & E2 & Hg)|[_ ->]]; [|by split].
  apply rain_block_keeps in E2 as (S2 & _ & D2).
  assert (H2 : forall k, is_Some (d2 !! k) ->
            is_Some (record !! k) \/ k ∈ ["hourRain"; "rain24"; "dayRain"]).
  { intros k Hk. destruct (D2 k Hk) as [?| ->]; [by apply H1|right; set_solver]. }
  apply or_pass_Ok in Hg as [(d3 & E3 & Hg)|[_ ->]]; [|split; [by etrans|done]].
  apply rain_block_keeps in E3 as (S3 & _ & D3).
  injection Hg as <-. split; [by do 2 (etrans; [|done])|].
  intros k Hk. destruct (D3 k Hk) as [?| ->]; [by apply H2|right; set_solver].
Qed.
End EnricherFrame.

(** The table has no column [rain]: the statements that sum it raise. *)
Lemma getSql_rain_raises a statement args :
  (statement = SumRainAfter \/ statement = SumRainFrom) ->
  length args = 2%nat ->
  getSql a statement args = Raise OperationalError ->
  has_rain a = false.
Proof.
  intros Hst Hlen Hraise.
  destruct args as [|x [|y [|z args]]]; try done.
  destruct Hst as [-> | ->]; simpl in Hraise; by destruct (has_rain a).
Qed.

(** A block on a table without the column [rain]: the statement raises
    unless the dictionary has the key of the block. *)
Lemma rain_block_no_rain_column a key statement x y record d :
  has_rain a = false ->
  statement = SumRainAfter \/ statement = SumRainFrom ->
  rain_block (getSql a) key statement [x; y] record d =
  if has_key d key then Ok d else Raise OperationalError.
Proof.
  intros Hcol Hst. unfold rain_block. destruct (has_key d key); [done|].
  destruct Hst as [-> | ->]; simpl; by rewrite Hcol.
Qed.

(** X: an archive without rain.  When the table of the archive has no
    column [rain], [get_record] returns the record as it is, for any record
    with a time stamp: the [OperationalError] of the first statement it runs
    is swallowed, and no derived field is added. *)
Theorem get_record_without_rain_column startOfDay a record time_ts :
  has_rain a = false ->
  stamp_of record = Ok time_ts ->
  get_record startOfDay (getSql a) record = Ok record.
Proof.
  intros Hcol Hts. unfold get_record. unfold stamp_of in Hts.
  rewrite Hts. simpl.
  rewrite (rain_block_no_rain_column _ "hourRain") by (by auto).
  destruct (has_key record "hourRain"); [|reflexivity]. simpl.
  rewrite (rain_block_no_rain_column _ "rain24") by (by auto).
  destruct (has_key record "rain24"); [|reflexivity]. simpl.
  rewrite (rain_block_no_rain_column _ "dayRain") by (by auto).
  destruct (has_key record "dayRain"); reflexivity.
Qed.

Lemma get_record_without_rain_column_witness :
  let a := {| has_rain := false; has_rainRate := false; rows := [row_at 7200 1 None] |} in
  get_record utc_midnight (getSql a) (record_at 7200) = Ok (record_at 7200)
  /\ has_key (record_at 7200) "hourRain" = false.
Proof.
  split; [|reflexivity].
  apply (get_record_without_rain_column utc_midnight _ (record_at 7200) 7200%Q);
    reflexivity.
Defined.

(** X: enriching twice.  On a table archive, a record that [get_record]
    returned is returned as it is when it is given to [get_record] again. *)
Theorem get_record_idempotent startOfDay a record r :
  get_record startOfDay (getSql a) record = Ok r ->
  get_record startOfDay (getSql a) r = Ok r.
Proof.
  intros Hg.
  assert (Hts : exists time_ts, stamp_of record = Ok time_ts).
  { unfold get_record in Hg. unfold stamp_of.
    destruct (_ ← getitem record "dateTime"; _) as [time_ts|e]; [by eexists|done]. }
  destruct Hts as [time_ts Hts].
  pose proof (get_record_result _ _ _ _ Hg) as (Hsub & _ & [(K1 & K2 & K3)|Hraise]).
  - apply get_record_present with (time_ts := time_ts); try done.
    unfold stamp_of, getitem in *.
    destruct (record !! "dateTime") as [v|] eqn:E; [|done].
    by rewrite (lookup_weaken _ _ _ _ E Hsub).
  - destruct Hraise as (statement & args & Hst & Hlen & Hraise).
    pose proof (getSql_rain_raises _ _ _ Hst Hlen Hraise) as Hcol.
    assert (Hsame : get_record startOfDay (getSql a) record = Ok record).
    { unfold get_record. unfold stamp_of in Hts. rewrite Hts. simpl.
      rewrite !rain_block_no_rain_column by (by auto).
      repeat (match goal with
              | |- context [if has_key ?d ?k then _ else _] => destruct (has_key d k)
              end; simpl;
              rewrite ?rain_block_no_rain_column by (by auto)); reflexivity. }
    rewrite Hsame in Hg. injection Hg as <-. exact Hsame.
Qed.

Lemma get_record_keeps_fields_witness :
  let r := enriched wet_archive (record_at 7200) in
  get_record utc_midnight (getSql wet_archive) (record_at 7200) = Ok r
  /\ record_at 7200 ⊆ r
  /\ r !! "usUnits" = Some (VInt 1)
  /\ has_key r "rain24" = true.
Proof.
  intros r.
  assert (Hg : get_record utc_midnight (getSql wet_archive) (record_at 7200) = Ok r).
  { unfold r, enriched.
    destruct (get_record utc_midnight (getSql wet_archive) (record_at 7200)) eqn:E;
      [reflexivity|vm_compute in E; discriminate]. }
  destruct (get_record_keeps_fields utc_midnight (getSql wet_archive) _ _ Hg)
    as [Hsub _].
  split; [exact Hg|]. split; [exact Hsub|]. split.
  - eapply lookup_weaken; [|exact Hsub]. reflexivity.
  - vm_compute. reflexivity.
Defined.

Lemma get_record_idempotent_witness :
  let r := enriched wet_archive (record_at 7200) in
  get_record utc_midnight (getSql wet_archive) (record_at 7200) = Ok r
  /\ get_record utc_midnight (getSql wet_archive) r = Ok r.
Proof.
  intros r.
  assert (Hg : get_record utc_midnight (getSql wet_archive) (record_at 7200) = Ok r).
  { unfold r, enriched.
    destruct (get_record utc_midnight (getSql wet_archive) (record_at 7200)) eqn:E;
      [reflexivity|vm_compute in E; discriminate]. }
  split; [exact Hg|].
  exact (get_record_idempotent utc_midnight wet_archive (record_at 7200) r Hg).
Defined.

(* ================================================================== *)
(** * The station registry *)
(* ================================================================== *)

(** ** Quoting *)

Lemma quote_plus_app a b safe :
  quote_plus (a +:+ b) safe = quote_plus a safe +:+ quote_plus b safe.
Proof.
  induction a as [|c a IH]; simpl; [done|].
  rewrite IH.
  destruct (Ascii.eqb c " "); [done|].
  destruct (always_safe c || contains c safe); [done|].
  reflexivity.
Qed.

(** A quoted text holds no ampersand when the ampersand is not declared
    safe. *)
Lemma quote_plus_no_ampersand s safe :
  contains "&"%char safe = false ->
  contains "&"%char (quote_plus s safe) = false.
Proof.
  intros Hsafe. induction s as [|c s IH]; simpl; [done|].
  rewrite contains_app, IH, orb_false_r.
  destruct (Ascii.eqb c " ") eqn:Esp; [reflexivity|].
  destruct (always_safe c || contains c safe) eqn:Ekeep.
  - simpl. rewrite orb_false_r. apply Ascii.eqb_neq. intros ->.
    simpl in Ekeep. by rewrite Hsafe in Ekeep.
  - destruct c as [[] [] [] [] [] [] [] []]; vm_compute; reflexivity.
Qed.

Section RegistryFacts.
Variable python_version : string.
Variable platform : string.
Variable US : Z.
Variable convert : string -> value -> string.

(** The loop of [format_url]: it raises [KeyError] at the first type that
    the record lacks, and otherwise appends the pieces of the types that
    have a value. *)
Lemma format_types_pieces record order :
  forall _liststr,
    (Forall (fun entry : string * string => is_Some (record !! fst entry)) order ->
     StationRegistry.format_types convert record order _liststr =
       Ok (_liststr ++ StationRegistry.pieces convert record order))
    /\ (Exists (fun entry : string * string => record !! fst entry = None) order ->
        StationRegistry.format_types convert record order _liststr = Raise KeyError).
Proof.
  induction order as [|entry order IH]; intros _liststr.
  - split; [intros _; simpl; by rewrite app_nil_r|]. intros Hex. by inversion Hex.
  - simpl. unfold getitem, StationRegistry.pieces. simpl.
    destruct (record !! fst entry) as [v|] eqn:E; simpl.
    + split.
      * intros Hall. apply Forall_cons in Hall as [_ Hall].
        rewrite (proj1 (IH _) Hall). unfold StationRegistry.pieces.
        destruct (is_not_None v); simpl; [by rewrite <- app_assoc|done].
      * intros Hex. apply Exists_cons in Hex as [Hhere|Hex]; [simpl in Hhere; congruence|].
        by apply IH.
    + split; [|done]. intros Hall. apply Forall_cons in Hall as [[? Hsome] _].
      simpl in Hsome. congruence.
Qed.



(** The name of a piece is the key of its type. *)
Lemma registry_param_key entry v :
  entry ∈ StationRegistry._formats ->
  Ambient.param_key (quote_plus (Ambient.percent convert (snd entry) v) "=") =
  fst entry.
Proof.
  intros Hin. unfold Ambient.percent. rewrite quote_plus_app.
  unfold StationRegistry._formats in Hin.
  repeat (apply elem_of_cons in Hin as [->|Hin]); [reflexivity..|].
  by apply elem_of_nil in Hin.
Qed.

Lemma registry_pieces_cons record entry order :
  StationRegistry.pieces convert record (entry :: order) =
  match record !! fst entry with
  | Some v =>
      if is_not_None v
      then quote_plus (Ambient.percent convert (snd entry) v) "="
           :: StationRegistry.pieces convert record order
      else StationRegistry.pieces convert record order
  | None => StationRegistry.pieces convert record order
  end.
Proof.
  unfold StationRegistry.pieces. simpl.
  destruct (record !! fst entry) as [v|]; [|done]. by destruct (is_not_None v).
Qed.

Lemma registry_pieces_keys record order :
  (forall entry, entry ∈ order -> entry ∈ StationRegistry._formats) ->
  Ambient.param_keys (StationRegistry.pieces convert record order) =
  fst <$> filter (fun entry : string * string =>
                    is_not_None (dict_get record (fst entry)) = true) order.
Proof.
  induction order as [|entry order IH]; intros Hsub; [done|].
  assert (Hsub' : forall e, e ∈ order -> e ∈ StationRegistry._formats)
    by (intros e He; apply Hsub; by right).
  specialize (IH Hsub'). rewrite registry_pieces_cons.
  destruct (record !! fst entry) as [v|] eqn:E.
  - destruct (is_not_None v) eqn:Ev.
    + rewrite filter_cons_True by (unfold dict_get; by rewrite E).
      unfold Ambient.param_keys in *. rewrite !fmap_cons, IH. f_equal.
      apply registry_param_key. apply Hsub. by left.
    + rewrite filter_cons_False by (unfold dict_get; rewrite E, Ev; done).
      exact IH.
  - rewrite filter_cons_False by (unfold dict_get; rewrite E; done).
    exact IH.
Qed.

Lemma registry_pieces_no_ampersand record order :
  Forall (fun piece => contains "&"%char piece = false)
         (StationRegistry.pieces convert record order).
Proof.
  induction order as [|entry order IH]; [constructor|].
  rewrite registry_pieces_cons. destruct (record !! fst entry) as [v|]; [|exact IH].
  destruct (is_not_None v); [|exact IH].
  constructor; [|exact IH]. by apply quote_plus_no_ampersand.
Qed.

(** X: the registry URL reads back.  Whatever text the attributes of the
    station hold (spaces, ampersands, equals signs), the query of the URL
    that [format_url] returns splits at its ampersands into one piece for
    each mapped type whose value is not [None], in the order of the visit,
    and the name before the first equals sign of each piece is the key of
    its type; no name occurs twice.  This needs a server address without a
    question mark and one mapped type with a value. *)
Theorem StationRegistry_url_reads_back (order : list (string * string))
    (self : StationRegistry.StationRegistryThread) (record : gmap string value)
    (url : string) :
  order ≡ₚ StationRegistry._formats ->
  contains "?"%char (StationRegistry.server_url self) = false ->
  (exists entry v, entry ∈ StationRegistry._formats
                   /\ record !! fst entry = Some v /\ v <> VNone) ->
  StationRegistry.format_url_in convert order self record = Ok url ->
  split_on "&"%char (Ambient.query_string url) =
    StationRegistry.pieces convert record order
  /\ Ambient.query_keys url =
     fst <$> filter (fun entry : string * string =>
                       is_not_None (dict_get record (fst entry)) = true) order
  /\ NoDup (Ambient.query_keys url).
Proof.
  intros Hperm Hserver (entry & v & Hin & Hv & Hnn) Hurl.
  assert (Hsub : forall e, e ∈ order -> e ∈ StationRegistry._formats).
  { intros e He. by rewrite <- Hperm. }
  assert (Hall : Forall (fun e : string * string => is_Some (record !! fst e)) order).
  { destruct (decide (Forall (fun e : string * string => is_Some (record !! fst e))
                             order)) as [?|Hnot]; [done|].
    apply not_Forall_Exists in Hnot; [|apply _].
    unfold StationRegistry.format_url_in in Hurl.
    rewrite (proj2 (format_types_pieces record order [])) in Hurl; [done|].
    eapply Exists_impl; [exact Hnot|]. intros e He. simpl in He.
    by apply eq_None_not_Some. }
  unfold StationRegistry.format_url_in in Hurl.
  rewrite (proj1 (format_types_pieces record order []) Hall) in Hurl.
  simpl in Hurl. injection Hurl as <-.
  assert (Hsplit : split_on "&"%char
            (Ambient.query_string
               (StationRegistry.server_url self +:+ "?" +:+
                String.concat "&" (StationRegistry.pieces convert record order))) =
            StationRegistry.pieces convert record order).
  { rewrite query_string_url by done.
    change "&" with (String "&"%char EmptyString).
    apply split_on_concat; [|apply registry_pieces_no_ampersand].
    intros Hnil.
    assert (Hk : fst entry ∈ Ambient.param_keys
                   (StationRegistry.pieces convert record order)).
    { rewrite registry_pieces_keys by done. apply list_elem_of_fmap_2.
      apply list_elem_of_filter. split; [|by rewrite Hperm].
      unfold dict_get. rewrite Hv. by destruct v. }
    rewrite Hnil in Hk. by apply elem_of_nil in Hk. }
  assert (Hkeys : Ambient.query_keys
            (StationRegistry.server_url self +:+ "?" +:+
             String.concat "&" (StationRegistry.pieces convert record order)) =
          fst <$> filter (fun entry : string * string =>
                            is_not_None (dict_get record (fst entry)) = true) order).
  { unfold Ambient.query_keys. rewrite Hsplit. by apply registry_pieces_keys. }
  split; [exact Hsplit|]. split; [exact Hkeys|].
  rewrite Hkeys. eapply sublist_NoDup; [|apply fmap_sublist, sublist_filter].
  rewrite Hperm. apply (bool_decide_unpack _). vm_compute. reflexivity.
Qed.
End RegistryFacts.


Lemma StationRegistry_url_reads_back_witness :
  let own := StationRegistry.get_record "2.7.3" "Linux" 1 registry (record_at 0) tt in
  exists url,
    StationRegistry.format_url show_text registry own = Ok url
    /\ Ambient.query_keys url =
       ["station_url"; "description"; "latitude"; "station_type"; "station_model";
        "python_info"; "platform_info"; "weewx_info"]
    /\ split_on "&"%char (Ambient.query_string url) !! 0%nat =
       Some "station_url=http%3A%2F%2Fwww.example.org%2Fweather+%26+more".
Proof.
  intros own.
  destruct (StationRegistry.format_url show_text registry own) as [url|e] eqn:E;
    [|vm_compute in E; discriminate].
  exists url. split; [reflexivity|].
  destruct (StationRegistry_url_reads_back show_text StationRegistry._formats
              registry own url) as (Hsplit & Hkeys & _).
  - reflexivity.
  - reflexivity.
  - exists ("station_url", "station_url=%s"),
      (VStr "http://www.example.org/weather & more").
    split; [apply list_elem_of_here|]. split; [reflexivity|discriminate].
  - exact E.
  - split.
    + rewrite Hkeys. vm_compute. reflexivity.
    + rewrite Hsplit. vm_compute. reflexivity.
Defined.

(** ** The verdict of the registry *)

Lemma StationRegistry_check_lines_spec lines :
  (StationRegistry.check_lines lines = Ok tt <->
   Forall (fun line => String.prefix "FAIL" line = false) lines)
  /\ (StationRegistry.check_lines lines = Raise FailedPost <->
      Exists (fun line => String.prefix "FAIL" line = true) lines).
Proof.
  induction lines as [|line lines [IHok IHfail]]; simpl.
  - split; split; try done. intros Hex. by inversion Hex.
  - destruct (String.prefix "FAIL" line) eqn:E.
    + split; split; try done.
      * intros Hall. apply Forall_cons in Hall as [Hl _]. congruence.
      * intros _. by left.
    + rewrite Forall_cons, Exists_cons. split.
      * rewrite IHok. split; [by intros ?; split|by intros [_ ?]].
      * rewrite IHfail. split; [by right|]. intros [Hl|Hex]; [congruence|done].
Qed.

(** X: a failed registration.  The validator of the station registry
    accepts a response exactly when none of its lines starts with FAIL, and
    raises [FailedPost] otherwise.  That [FailedPost] is not among the
    exceptions that [post_with_retries] catches: when the first attempt gets
    such a response with status 200, the post is given up after that one
    attempt, without a sleep, whatever [max_tries >= 1] is. *)
Theorem StationRegistry_fail_not_retried {W : Type} `{World W}
    (post_request_m : string -> W -> result response * W)
    (self : RESTThread) (request : string) (w w' : W) (_response : response) :
  1 <= max_tries self ->
  post_request_m request w = (Ok _response, w') ->
  code _response = 200 ->
  (StationRegistry.check_response _response = Ok tt <->
   Forall (fun line => String.prefix "FAIL" line = false) (body _response))
  /\ ((exists line, line ∈ body _response /\ String.prefix "FAIL" line = true) ->
      post_with_retries post_request_m StationRegistry.check_response self request w =
        (Raise FailedPost, w', [Attempt 0]))
  /\ (Forall (fun line => String.prefix "FAIL" line = false) (body _response) ->
      post_with_retries post_request_m StationRegistry.check_response self request w =
        (Ok tt, w', [Attempt 0])).
Proof.
  intros Hmax Hpost Hcode.
  pose proof (StationRegistry_check_lines_spec (body _response)) as [Hok Hfail].
  split; [exact Hok|].
  unfold post_with_retries.
  destruct (Z.to_nat (max_tries self)) as [|n] eqn:En; [lia|].
  simpl. unfold post_once. rewrite Hpost, Hcode. simpl.
  unfold StationRegistry.check_response. split.
  - intros (line & Hin & Hp).
    rewrite (proj2 Hfail); [done|]. apply Exists_exists. by exists line.
  - intros Hall. by rewrite (proj2 Hok Hall).
Qed.

Lemma StationRegistry_fail_not_retried_witness :
  post_with_retries (post_request (StationRegistry.base registry))
                    StationRegistry.check_response (StationRegistry.base registry)
                    "http://weewx.com/register/register.cgi?station_url=x"
                    (failing 0) =
    (Raise FailedPost, quiet 0, [Attempt 0]).
Proof.
  apply (StationRegistry_fail_not_retried
           (post_request (StationRegistry.base registry))
           (StationRegistry.base registry)
           "http://weewx.com/register/register.cgi?station_url=x"
           (failing 0) (quiet 0)
           {| code := 200; body := ["FAIL: bad station_url"] |}).
  - simpl. lia.
  - reflexivity.
  - reflexivity.
  - exists "FAIL: bad station_url". split; [apply list_elem_of_here|reflexivity].
Defined.

(* ================================================================== *)
(** * WOW and the rapid-fire variant of the Ambient protocol *)
(* ================================================================== *)

(** X: the bad login of WOW.  When [urlopen] raises the HTTP error of a
    code 400 or 403, [WOWThread.post_request] raises [BadLogin], which
    [post_with_retries] does not catch: the post ends after that one
    attempt.  The [post_request] of the base class lets the same error
    through, and [post_with_retries] retries it; so does the one of WOW for
    any other code, and it changes no other outcome of the base class. *)
Theorem WOW_bad_login_codes {W : Type} `{World W}
    (self : Ambient.AmbientThread) (request : string) (w w' : W) (c : Z) :
  1 <= max_tries (Ambient.base self) ->
  urlopen request (Some (timeout (Ambient.base self))) w = (Raise (HTTPError c), w') ->
  (c = 400 \/ c = 403 ->
   post_with_retries (WOW.post_request self) Ambient.check_response
                     (Ambient.base self) request w =
     (Raise BadLogin, w', [Attempt 0]))
  /\ (c <> 400 -> c <> 403 ->
      WOW.post_request self request w = (Raise (HTTPError c), w')
      /\ attempt_retried (WOW.post_request self) Ambient.check_response request w)
  /\ attempt_retried (post_request (Ambient.base self)) Ambient.check_response
                     request w
  /\ (forall request0 w0,
        (forall c0, fst (post_request (Ambient.base self) request0 w0)
                    <> Raise (HTTPError c0)) ->
        WOW.post_request self request0 w0 =
        post_request (Ambient.base self) request0 w0).
Proof.
  intros Hmax Hopen.
  assert (Hbase : post_request (Ambient.base self) request w =
                  (Raise (HTTPError c), w')).
  { unfold post_request. by rewrite Hopen. }
  split; [|split; [|split]].
  - intros Hc. unfold post_with_retries.
    destruct (Z.to_nat (max_tries (Ambient.base self))) as [|n] eqn:En; [lia|].
    simpl. unfold post_once, WOW.post_request. rewrite Hbase.
    assert ((c =? 400) || (c =? 403) = true) as ->; [|reflexivity].
    destruct Hc as [-> | ->]; reflexivity.
  - intros H400 H403.
    assert (Hwow : WOW.post_request self request w = (Raise (HTTPError c), w')).
    { unfold WOW.post_request. rewrite Hbase.
      assert ((c =? 400) || (c =? 403) = false) as ->; [|reflexivity].
      apply orb_false_iff. split; by apply Z.eqb_neq. }
    split; [exact Hwow|].
    unfold attempt_retried, post_once. by rewrite Hwow.
  - unfold attempt_retried, post_once. by rewrite Hbase.
  - intros request0 w0 Hnot. unfold WOW.post_request.
    destruct (post_request (Ambient.base self) request0 w0) as [[_response|e] w0'];
      [done|].
    destruct e; try done. exfalso. eapply Hnot. reflexivity.
Qed.

Lemma WOW_bad_login_codes_witness :
  post_with_retries (WOW.post_request pws) Ambient.check_response
                    (Ambient.base pws) "http://wow.metoffice.gov.uk/automaticreading?"
                    (refusing 0 403) =
    (Raise BadLogin, quiet 0, [Attempt 0]).
Proof.
  apply (WOW_bad_login_codes pws "http://wow.metoffice.gov.uk/automaticreading?"
           (refusing 0 403) (quiet 0) 403).
  - simpl. lia.
  - reflexivity.
  - by right.
Defined.

Section AmbientLoopFacts.
Variable startOfDay : Q -> Q.
Variable getSql_m : sql -> list Q -> result (option (list value)).
Variable convert : string -> value -> string.
Variable quote_utc : value -> value.

(** X: the record of a rapid-fire post.  [AmbientLoopThread.get_record]
    returns or raises as the enricher of the base class does.  The record
    it returns has [realtime] set to ['1'] and [rtfreq] to ['2.5'], whatever
    the packet held under these keys, and is the record of the base class
    everywhere else; so the pieces [realtime=1] and [rtfreq=2.5] are in
    the query that [format_url] builds from it. *)
Theorem AmbientLoop_get_record_realtime (self : Ambient.AmbientThread)
    (record : gmap string value) :
  match get_record startOfDay getSql_m record with
  | Raise e => AmbientLoop.get_record startOfDay getSql_m record = Raise e
  | Ok r =>
      exists r',
        AmbientLoop.get_record startOfDay getSql_m record = Ok r'
        /\ r' !! "realtime" = Some (VStr "1")
        /\ r' !! "rtfreq" = Some (VStr "2.5")
        /\ (forall k, k <> "realtime" -> k <> "rtfreq" -> r' !! k = r !! k)
        /\ Ambient.percent convert "realtime=%s" (VStr "1")
             ∈ Ambient.liststr convert quote_utc self Ambient._formats r'
        /\ Ambient.percent convert "rtfreq=%s" (VStr "2.5")
             ∈ Ambient.liststr convert quote_utc self Ambient._formats r'
  end.
Proof.
  unfold AmbientLoop.get_record.
  destruct (get_record startOfDay getSql_m record) as [r|e]; [|done].
  simpl. eexists. split; [reflexivity|].
  split; [by simplify_map_eq|]. split; [by simplify_map_eq|].
  split; [intros k H1 H2; by simplify_map_eq|].
  unfold Ambient.liststr, Ambient._formats.
  split; rewrite elem_of_app; right; apply list_elem_of_In, in_flat_map.
  - exists ("realtime", "realtime=%s"). split.
    + apply list_elem_of_In. set_solver.
    + unfold Ambient.format_type, dict_get. simpl. simplify_map_eq. simpl. by left.
  - exists ("rtfreq", "rtfreq=%s"). split.
    + apply list_elem_of_In. set_solver.
    + unfold Ambient.format_type, dict_get. simpl. simplify_map_eq. simpl. by left.
Qed.
End AmbientLoopFacts.

(* ================================================================== *)
(** * Further properties of the protocols *)
(* ================================================================== *)

(** ** AWEKAS: the verdict on a response *)

Lemma prefix_OK_not_login_fault line :
  String.prefix "OK" line = true ->
  String.prefix "Benutzer/Passwort Fehler" line = false.
Proof.
  destruct line as [|c line]; [done|].
  destruct (Ascii.ascii_dec "O" c) as [<-|Hne] eqn:E.
  - intros _. reflexivity.
  - intros Hp. cbn [String.prefix] in Hp. by rewrite E in Hp.
Qed.

(** X: the verdict of AWEKAS.  [AWEKASThread.check_response] accepts a
    response exactly when every line starts with OK, the empty response
    included.  Otherwise the first line that does not start with OK decides:
    [BadLogin] when it starts with the login fault of the server,
    [FailedPost] when it does not, whatever the lines after it say. *)
Theorem AWEKAS_check_response_verdict (_response : response) :
  (AWEKAS.check_response _response = Ok tt <->
   Forall (fun line => String.prefix "OK" line = true) (body _response))
  /\ (forall pre line post,
        body _response = pre ++ line :: post ->
        Forall (fun line => String.prefix "OK" line = true) pre ->
        String.prefix "OK" line = false ->
        AWEKAS.check_response _response =
          if String.prefix "Benutzer/Passwort Fehler" line
          then Raise BadLogin else Raise FailedPost).
Proof.
  unfold AWEKAS.check_response. generalize (body _response) as lines.
  intros lines. split.
  - induction lines as [|l lines IH]; simpl; [by split|].
    destruct (String.prefix "OK" l) eqn:Eok.
    + rewrite (prefix_OK_not_login_fault _ Eok). simpl.
      rewrite IH, Forall_cons. split; [by intros ?; split|by intros [_ ?]].
    + destruct (String.prefix "Benutzer/Passwort Fehler" l); simpl;
        (split; [done|]); intros Hall; apply Forall_cons in Hall as [Hl _];
        congruence.
  - intros pre line post -> Hpre Hline.
    induction Hpre as [|l pre Hl _ IH]; simpl.
    + rewrite Hline. by destruct (String.prefix "Benutzer/Passwort Fehler" line).
    + by rewrite (prefix_OK_not_login_fault _ Hl), Hl.
Qed.

(** ** CWOP: addresses and socket faults *)

Section CWOPRuns.
Context {W : Type} `{World W}.
Variable int : string -> result Z.
Variables login tnc_packet : string.

Lemma try_server_Some server port counts w r w' tr :
  CWOP.try_server login tnc_packet server port counts w = (Some r, w', tr) ->
  r <> Raise FailedPost.
Proof.
  revert w tr. induction counts as [|_count counts IH]; intros w tr; [done|].
  simpl.
  pose proof (exchange_not_FailedPost login tnc_packet server port w) as Hnf.
  destruct (CWOP.exchange login tnc_packet server port w) as [[[]|e] w1].
  - by intros [= <- _ _].
  - simpl in Hnf.
    destruct (CWOP.try_server login tnc_packet server port counts w1)
      as [[r1 w2] tr1] eqn:E.
    destruct e; try (intros [= <- _ _]; exact Hnf);
      intros [= -> -> _]; by eapply IH.
Qed.

(** The servers behind an address that does not parse are never tried:
    the error of the address takes the place of the [FailedPost] of the
    servers before it. *)
Lemma try_servers_bad_address max_tries good bad rest e :
  Forall (fun s => exists a, CWOP.parse_address int s = Ok a) good ->
  CWOP.parse_address int bad = Raise e ->
  forall w,
    CWOP.try_servers int max_tries login tnc_packet (good ++ bad :: rest) w =
    match CWOP.try_servers int max_tries login tnc_packet good w with
    | (Raise FailedPost, w', tr) => (Raise e, w', tr)
    | out => out
    end.
Proof.
  intros Hgood Hbad.
  induction Hgood as [|s good [[server port] Hs] _ IH]; intros w.
  - simpl. by rewrite Hbad.
  - simpl. rewrite Hs.
    destruct (CWOP.try_server login tnc_packet server port
                (seq 0 (Z.to_nat max_tries)) w) as [[[r|] w'] tr] eqn:E.
    + pose proof (try_server_Some _ _ _ _ _ _ _ E) as Hnf.
      destruct r as [[]|e']; [done|]. destruct e'; try done.
    + rewrite IH.
      destruct (CWOP.try_servers int max_tries login tnc_packet good w')
        as [[r w''] tr'].
      destruct r as [[]|e']; [done|]. by destruct e'.
Qed.

(** X: an address that does not parse.  Let the addresses of
    [server_list] parse up to one that does not.  [send_packet] works
    through the servers before it as if the list ended there; if one of
    them takes the packet, or an exception other than a connect or send
    fault is raised, the bad address goes unnoticed.  Only when all their
    attempts are used up does the error of the address leave [send_packet],
    in place of [FailedPost], and no server behind it is ever tried. *)
Theorem send_packet_bad_address (self before_it : CWOP.CWOPThread)
    (good : list string) (bad : string) (rest : list string) (e : exn) (w : W) :
  CWOP.server_list self = good ++ bad :: rest ->
  CWOP.server_list before_it = good ->
  max_tries (CWOP.base before_it) = max_tries (CWOP.base self) ->
  Forall (fun s => exists a, CWOP.parse_address int s = Ok a) good ->
  CWOP.parse_address int bad = Raise e ->
  let out := CWOP.send_packet int self login tnc_packet w in
  let out' := CWOP.send_packet int before_it login tnc_packet w in
  snd out = snd out'
  /\ snd (fst out) = snd (fst out')
  /\ fst (fst out) = (if is_FailedPost (fst (fst out'))
                      then Raise e else fst (fst out'))
  /\ exists later,
       CWOP.schedule int (max_tries (CWOP.base self)) good = snd out ++ later.
Proof.
  intros Hlist Hgood Hmax Hparse Hbad out out'.
  subst out out'. unfold CWOP.send_packet. rewrite Hlist, Hgood, Hmax.
  rewrite (try_servers_bad_address _ _ _ _ _ Hparse Hbad).
  pose proof (run_schedule_prefix login tnc_packet
                (CWOP.schedule int (max_tries (CWOP.base self)) good) w) as Hpre.
  rewrite <- (try_servers_run int login tnc_packet _ _ _ Hparse) in Hpre.
  destruct (CWOP.try_servers int (max_tries (CWOP.base self)) login tnc_packet
              good w) as [[r w'] tr].
  simpl in Hpre.
  destruct r as [[]|e']; [done|]. by destruct e'.
Qed.

Lemma exchange_io_faults server port w :
  sockets_raise_IOError W ->
  let r := fst (CWOP.exchange login tnc_packet server port w) in
  r = Ok tt \/ r = Raise ConnectError \/ r = Raise SendError.
Proof.
  intros (Hconnect & Hsend & Hrecv).
  assert (Hs : forall msg w0,
    fst (CWOP._send msg w0) = Ok tt \/ fst (CWOP._send msg w0) = Raise SendError).
  { intros msg w0. unfold CWOP._send.
    pose proof (Hsend msg w0) as Hs.
    destruct (sock_send msg w0) as [[[]|e] w1]; simpl in *.
    - pose proof (Hrecv w1) as Hr.
      destruct (sock_recv w1) as [[[]|e] w2]; simpl in *; [by left|].
      rewrite (Hr e eq_refl). by left.
    - rewrite (Hs e eq_refl). by right. }
  unfold CWOP.exchange, CWOP._get_connect.
  pose proof (Hconnect server port w) as Hc.
  destruct (sock_connect server port w) as [[[]|e] w1]; simpl in *.
  - pose proof (Hs login w1) as Hl.
    destruct (CWOP._send login w1) as [[[]|e] w2]; simpl in *.
    + pose proof (Hs tnc_packet w2) as Hp.
      destruct (CWOP._send tnc_packet w2) as [r w3]; simpl in *.
      destruct Hp as [-> | ->]; auto.
    + destruct Hl as [?|[= ->]]; [done|]. auto.
  - rewrite (Hc e eq_refl). simpl. auto.
Qed.

(** X: socket faults stay inside.  Let the addresses of [server_list]
    parse.  An input/output error of the socket never leaves [send_packet]
    as it is: what [send_packet] raises is [FailedPost] or no input/output
    error at all.  In a world whose socket calls raise nothing but
    input/output errors, [send_packet] therefore returns or raises
    [FailedPost], and the worker goes on with the next record. *)
Theorem send_packet_contains_io_errors (self : CWOP.CWOPThread) (w : W) :
  Forall (fun s => exists a, CWOP.parse_address int s = Ok a) (CWOP.server_list self) ->
  let r := fst (fst (CWOP.send_packet int self login tnc_packet w)) in
  (forall e, r = Raise e -> e = FailedPost \/ is_IOError e = false)
  /\ (sockets_raise_IOError W ->
      (r = Ok tt \/ r = Raise FailedPost) /\ goes_on r = true).
Proof.
  intros Hparse r. subst r. unfold CWOP.send_packet.
  rewrite (try_servers_run int login tnc_packet _ _ _ Hparse).
  generalize (CWOP.schedule int (max_tries (CWOP.base self)) (CWOP.server_list self)).
  intros todo. split.
  - revert w. induction todo as [|a todo IH]; intros w e; simpl.
    { intros [= <-]. by left. }
    pose proof (exchange_converted login tnc_packet a.1.1 a.1.2 w) as Hc.
    destruct (CWOP.exchange login tnc_packet a.1.1 a.1.2 w) as [[[]|e'] w'];
      [done|]. simpl in Hc.
    specialize (IH w' e).
    destruct (CWOP.run_schedule login tnc_packet todo w') as [[r' w''] tr].
    destruct e'; simpl; try (intros [= <-]; destruct Hc as [|[|]]; auto; done);
      exact IH.
  - intros Hio.
    assert (Hres : fst (fst (CWOP.run_schedule login tnc_packet todo w)) = Ok tt
                   \/ fst (fst (CWOP.run_schedule login tnc_packet todo w)) =
                      Raise FailedPost).
    { revert w. induction todo as [|a todo IH]; intros w; simpl; [by right|].
      pose proof (exchange_io_faults a.1.1 a.1.2 w Hio) as Hx.
      destruct (CWOP.exchange login tnc_packet a.1.1 a.1.2 w) as [[[]|e'] w'];
        [by left|]. simpl in Hx.
      specialize (IH w').
      destruct (CWOP.run_schedule login tnc_packet todo w') as [[r' w''] tr].
      destruct Hx as [?|[[= ->]|[= ->]]]; [done|exact IH..]. }
    split; [exact Hres|]. by destruct Hres as [-> | ->].
Qed.
End CWOPRuns.

Lemma send_packet_bad_address_witness :
  let out := CWOP.send_packet known_port cwop_typo "user CW1234 pass -1" "packet"
                              (quiet 0) in
  fst (fst out) = Raise ValueError
  /\ snd out = [("cwop.aprs.net", 14580, 0%nat); ("cwop.aprs.net", 14580, 1%nat);
                ("cwop.aprs.net", 14580, 2%nat)].
Proof.
  intros out.
  destruct (send_packet_bad_address known_port "user CW1234 pass -1" "packet"
              cwop_typo
              {| CWOP.base := thread_with 0 None None;
                 CWOP.station := "CW1234"; CWOP.passcode := "-1";
                 CWOP.server_list := ["cwop.aprs.net:14580"];
                 CWOP.station_type := "Vantage" |}
              ["cwop.aprs.net:14580"] "cwop.aprs.net" [] ValueError (quiet 0))
    as (Htr & _ & Hr & _).
  - reflexivity.
  - reflexivity.
  - reflexivity.
  - repeat constructor. eexists. reflexivity.
  - reflexivity.
  - split.
    + subst out. rewrite Hr. reflexivity.
    + subst out. rewrite Htr. reflexivity.
Defined.

Lemma send_packet_contains_io_errors_witness :
  let r := fst (fst (CWOP.send_packet known_port cwop "user CW1234 pass -1" "packet"
                                      (0%Q : offline))) in
  (r = Ok tt \/ r = Raise FailedPost) /\ goes_on r = true.
Proof.
  intros r.
  destruct (send_packet_contains_io_errors known_port "user CW1234 pass -1" "packet"
              cwop (0%Q : offline)) as [_ Hio].
  - repeat constructor; eexists; reflexivity.
  - apply Hio. unfold sockets_raise_IOError. simpl.
    split; [|split]; intros; simplify_eq; reflexivity.
Defined.

(** ** AWEKAS: the positions of the values *)

Section AWEKASUrlFacts.
Variable to_METRIC : gmap string value -> result (gmap string value).
Variable times : value -> Z -> value.
Variable md5_hexdigest : string -> string.
Variable time_tt : Type.
Variable gmtime : value -> result time_tt.
Variable strftime : string -> time_tt -> string.
Variable convert : string -> value -> string.
Variable str : value -> string.
Variables longitude_str latitude_str : string.

(** Scaling a type leaves the types without a value without one. *)
Lemma scale_blank label k (record : gmap string value) :
  record !! k = None \/ record !! k = Some VNone ->
  has_key (AWEKASUrl.scale times label record) k
  && is_not_None (dict_get (AWEKASUrl.scale times label record) k) = false.
Proof.
  intros Hk. unfold AWEKASUrl.scale.
  assert (Hsame : has_key record k && is_not_None (dict_get record k) = false).
  { unfold has_key, dict_get. by destruct Hk as [-> | ->]. }
  destruct (has_key record label && is_not_None (dict_get record label)) eqn:E;
    [|exact Hsame].
  destruct (decide (label = k)) as [->|Hne]; [congruence|].
  unfold has_key, dict_get. rewrite lookup_insert_ne by done.
  exact Hsame.
Qed.

Lemma scale_blank_lookup label k (record : gmap string value) :
  record !! k = None \/ record !! k = Some VNone ->
  AWEKASUrl.scale times label record !! k = None
  \/ AWEKASUrl.scale times label record !! k = Some VNone.
Proof.
  intros Hk. unfold AWEKASUrl.scale.
  destruct (has_key record label && is_not_None (dict_get record label)) eqn:E;
    [|exact Hk].
  destruct (decide (label = k)) as [->|Hne].
  - unfold has_key, dict_get in E. by destruct Hk as [Hk | Hk]; rewrite Hk in E.
  - by rewrite lookup_insert_ne.
Qed.

Lemma scale_lookup_ne label k (record : gmap string value) :
  k <> label -> AWEKASUrl.scale times label record !! k = record !! k.
Proof.
  intros Hne. unfold AWEKASUrl.scale.
  destruct (has_key record label && is_not_None (dict_get record label)); [|done].
  by rewrite lookup_insert_ne.
Qed.

(** X: the positions of AWEKAS.  [get_url] raises [KeyError] when the
    converted record has no [dateTime].  A URL it returns is the server
    address, [?val=] and twenty-five values joined by semicolons, whatever
    the record holds: the user name, the language, the longitude and the
    latitude at the positions 1, 14, 24 and 25 of the documentation of the
    service, each observation at its documented position, and an empty
    value at every position the documentation leaves blank and for every
    observation that the converted record lacks or holds as [None].  Read
    back, the query splits at its semicolons into twenty-five fields when
    no value holds a semicolon. *)
Theorem AWEKAS_get_url_positions (self : AWEKAS.AWEKASThread)
    (in_record : gmap string value) (url : string) :
  AWEKASUrl.get_url to_METRIC times md5_hexdigest time_tt gmtime strftime convert
                    str longitude_str latitude_str self in_record = Ok url ->
  exists metric _time_tt,
    to_METRIC in_record = Ok metric
    /\ is_Some (metric !! "dateTime")
    /\ let record := AWEKASUrl.scale times "rainRate"
                       (AWEKASUrl.scale times "dayRain" metric) in
       let vals := AWEKASUrl.values md5_hexdigest time_tt strftime convert str
                     longitude_str latitude_str self record _time_tt in
       url = AWEKAS.server_url self +:+ "?val=" +:+ String.concat ";" vals
       /\ length vals = 25%nat
       /\ vals !! 0%nat = Some (AWEKAS.username self)
       /\ vals !! 13%nat = Some (AWEKAS.language self)
       /\ vals !! 23%nat = Some longitude_str
       /\ vals !! 24%nat = Some latitude_str
       /\ (forall pos label, (pos, label) ∈ AWEKASUrl.observed ->
             vals !! pred pos = Some (AWEKASUrl._format convert str record label)
             /\ (metric !! label = None \/ metric !! label = Some VNone ->
                 vals !! pred pos = Some ""))
       /\ (forall pos, pos ∈ AWEKASUrl.blank -> vals !! pred pos = Some "")
       /\ (contains "?"%char (AWEKAS.server_url self) = false ->
           Forall (fun v => contains ";"%char v = false) vals ->
           length (split_on ";"%char (Ambient.query_string url)) = 25%nat).
Proof.
  intros Hurl. unfold AWEKASUrl.get_url in Hurl.
  destruct (to_METRIC in_record) as [metric|e] eqn:Em; [|done]. simpl in Hurl.
  unfold getitem in Hurl.
  destruct (AWEKASUrl.scale times "rainRate"
              (AWEKASUrl.scale times "dayRain" metric) !! "dateTime")
    as [_dateTime|] eqn:Ed; [|done]. simpl in Hurl.
  destruct (gmtime _dateTime) as [_time_tt|e] eqn:Eg; [|done]. simpl in Hurl.
  injection Hurl as <-.
  exists metric, _time_tt. split; [done|]. split.
  { rewrite !scale_lookup_ne in Ed by done. by rewrite Ed. }
  intros record vals.
  split; [reflexivity|]. split; [reflexivity|].
  do 4 (split; [reflexivity|]).
  split; [|split].
  - intros pos label Hin. unfold AWEKASUrl.observed in Hin.
    assert (Hblank : metric !! label = None \/ metric !! label = Some VNone ->
                     AWEKASUrl._format convert str record label = "").
    { intros Hk. unfold AWEKASUrl._format. subst record.
      rewrite scale_blank; [done|]. by apply scale_blank_lookup. }
    repeat (apply elem_of_cons in Hin as [[= -> ->]|Hin]);
      [(split; [reflexivity|intros Hk; simpl; by rewrite Hblank])..|].
    by apply elem_of_nil in Hin.
  - intros pos Hin. unfold AWEKASUrl.blank in Hin.
    repeat (apply elem_of_cons in Hin as [->|Hin]); [reflexivity..|].
    by apply elem_of_nil in Hin.
  - intros Hserver Hvals.
    change (length (split_on ";"%char
              (Ambient.query_string
                 (AWEKAS.server_url self +:+ "?" +:+
                  String.concat (String ";"%char EmptyString)
                    (("val=" +:+ AWEKAS.username self) :: tail vals)))) = 25%nat).
    rewrite query_string_url by done.
    rewrite split_on_concat; [reflexivity|done|].
    subst vals. unfold AWEKASUrl.values in *. simpl tail.
    apply Forall_cons in Hvals as [Huser Hvals].
    apply Forall_cons. split; [|exact Hvals]. simpl. exact Huser.
Qed.
End AWEKASUrlFacts.

Lemma AWEKAS_get_url_positions_witness :
  let record := <["outTemp" := VFloat (215 # 10)]> (record_at 7200) in
  exists url,
    AWEKASUrl.get_url same_units times_exact no_digest unit epoch show_epoch
                      show_text (show_text "%s") "-121.5" "45.7" awekas record = Ok url
    /\ length (split_on ";"%char (Ambient.query_string url)) = 25%nat.
Proof.
  intros record.
  destruct (AWEKASUrl.get_url same_units times_exact no_digest unit epoch show_epoch
              show_text (show_text "%s") "-121.5" "45.7" awekas record)
    as [url|e] eqn:E; [|vm_compute in E; discriminate].
  exists url. split; [reflexivity|].
  destruct (AWEKAS_get_url_positions _ _ _ _ _ _ _ _ _ _ _ _ _ E)
    as (metric & _time_tt & Hm & _ & Hrest).
  injection Hm as <-.
  destruct Hrest as (_ & _ & _ & _ & _ & _ & _ & _ & Hback).
  apply Hback; [reflexivity|].
  apply (bool_decide_unpack _). vm_compute. reflexivity.
Defined.

(* ================================================================== *)
(** * The services *)
(* ================================================================== *)

Lemma setdefault_lookup (d : gmap string value) key default k :
  Services.setdefault d key default !! k =
  if decide (k = key)
  then Some (match d !! key with Some v => v | None => default end)
  else d !! k.
Proof.
  unfold Services.setdefault.
  destruct (decide (k = key)) as [->|Hne].
  - destruct (d !! key) eqn:E; [done|]. by rewrite lookup_insert_eq.
  - destruct (d !! key) eqn:E; [done|]. by rewrite lookup_insert_ne.
Qed.

(** X: the threads of the Weather Underground.  [StdWunderground] starts
    no thread, and raises nothing, when its section or one of [station] and
    [password] is missing.  Otherwise it starts at most the thread for
    archive records and then the rapid-fire thread.  The two share the
    dictionary of options: every thread gets the configured [server_url]
    when there is one, and by default the archive address whenever the
    archive thread is started, the rapid-fire thread included; the
    rapid-fire address is the default only of a rapid-fire thread started
    alone.  The options [rapidfire] and [archive_post] are never passed
    on, and every other configured option is passed on as it is. *)
Theorem StdWunderground_threads (to_bool : value -> result bool)
    (prep_database : result unit) (section : option (gmap string value)) :
  (match section with
   | None => True
   | Some d => has_key d "station" && has_key d "password" = false
   end ->
   Services.StdWunderground to_bool prep_database section = Ok [])
  /\ (forall d threads,
        section = Some d ->
        Services.StdWunderground to_bool prep_database section = Ok threads ->
        let url :=
          match d !! "server_url" with
          | Some u => u
          | None => VStr (if starts_archive threads
                          then Services.archive_url else Services.rapidfire_url)
          end in
        Services.class <$> threads
          `sublist_of` [Services.AmbientThread; Services.AmbientLoopThread]
        /\ forall t, t ∈ threads ->
             Services.kwargs t !! "server_url" = Some url
             /\ Services.kwargs t !! "rapidfire" = None
             /\ Services.kwargs t !! "archive_post" = None
             /\ forall k v, d !! k = Some v -> k <> "rapidfire" ->
                  k <> "archive_post" -> Services.kwargs t !! k = Some v).
Proof.
  split.
  - destruct section as [d|]; [|done]. intros Hmiss. simpl. by rewrite Hmiss.
  - intros d threads -> Hrun. simpl in Hrun.
    destruct (has_key d "station" && has_key d "password").
    2:{ injection Hrun as <-. split; [apply sublist_nil_l|].
        intros t Ht. by apply elem_of_nil in Ht. }
    simpl in Hrun. destruct prep_database as [[]|e]; [|done]. simpl in Hrun.
    destruct (to_bool _) as [do_rapidfire_post|e]; [|done]. simpl in Hrun.
    destruct (to_bool _) as [do_archive_post|e]; [|done]. simpl in Hrun.
    injection Hrun as <-.
    assert (Hkeep : forall k, k <> "rapidfire" -> k <> "archive_post" ->
              delete "archive_post" (delete "rapidfire" d) !! k = d !! k).
    { intros k H1 H2. by rewrite !lookup_delete_ne. }
    assert (Hgone : delete "archive_post" (delete "rapidfire" d) !! "rapidfire" = None
                    /\ delete "archive_post" (delete "rapidfire" d) !! "archive_post"
                       = None).
    { split; [rewrite lookup_delete_ne by done|]; by rewrite lookup_delete_eq. }
    destruct Hgone as [Hg1 Hg2].
    set (d0 := delete "archive_post" (delete "rapidfire" d)) in *.
    assert (Hurl0 : d0 !! "server_url" = d !! "server_url") by (by apply Hkeep).
    destruct do_archive_post, do_rapidfire_post; simpl.
    + split; [done|]. intros t Ht.
      repeat (apply elem_of_cons in Ht as [->|Ht]); [| |by apply elem_of_nil in Ht];
        simpl; rewrite !setdefault_lookup; simpl; rewrite ?setdefault_lookup; simpl;
        rewrite ?Hurl0, ?Hg1, ?Hg2;
        (split; [by destruct (d !! "server_url")|]); (split; [done|]);
        (split; [done|]); intros k v Hk H1 H2;
        rewrite ?setdefault_lookup;
        repeat (destruct (decide _) as [->|?];
                [rewrite ?setdefault_lookup; simpl; rewrite ?Hkeep by done;
                 by rewrite ?Hk|]);
        rewrite ?setdefault_lookup;
        repeat (destruct (decide _) as [->|?];
                [rewrite ?setdefault_lookup; simpl; rewrite ?Hkeep by done;
                 by rewrite ?Hk|]);
        by rewrite Hkeep.
    + split; [apply sublist_skip, sublist_nil_l|]. intros t Ht.
      apply list_elem_of_singleton in Ht as ->. simpl.
      rewrite !setdefault_lookup; simpl. rewrite ?Hurl0, ?Hg1, ?Hg2.
      split; [by destruct (d !! "server_url")|]. split; [done|]. split; [done|].
      intros k v Hk H1 H2. rewrite setdefault_lookup.
      destruct (decide _) as [->|?]; [by rewrite Hurl0, Hk|]. by rewrite Hkeep.
    + split; [apply sublist_cons, sublist_skip, sublist_nil_l|]. intros t Ht. simpl in Ht.
      apply list_elem_of_singleton in Ht as ->. simpl.
      rewrite !setdefault_lookup; simpl; rewrite ?setdefault_lookup; simpl.
      rewrite ?Hurl0, ?Hg1, ?Hg2.
      split; [by destruct (d !! "server_url")|]. split; [done|]. split; [done|].
      intros k v Hk H1 H2.
      repeat (rewrite setdefault_lookup;
              destruct (decide _) as [->|?];
              [rewrite ?setdefault_lookup; simpl; rewrite ?Hkeep by done;
               by rewrite ?Hk|]).
      by rewrite Hkeep.
    + split; [by apply sublist_nil_l|]. intros t Ht. by apply elem_of_nil in Ht.
Qed.
